(** * sdc-docker: job polling, stream encodings and image endpoints

    A shallow embedding of the parts of sdc-docker that its specification
    talks about:

    - [lib/common.js]: [writeToDockerRawStream], [formatProgress],
      [writeProgress], [writeStatus], [pollJob] and [waitForJob];
    - [lib/endpoints/images.js]: the image endpoint handlers;
    - the volume resolver exercised by the DOCKER-880 regression test,
      whose implementation is not part of the sources at hand.

    JavaScript values are modelled by the inductive type [JS.value];
    callbacks become returned outcomes, timers and calls to collaborators
    become entries of an effect trace. *)

From Stdlib Require Import ZArith List String Ascii Bool Lia DecimalString.
Import ListNotations.
Open Scope string_scope.
Set Warnings "-register-all".

(* ================================================================= *)
(** ** JavaScript values *)

Module JS.

(** Numbers are restricted to integers: the numbers the modelled code
    handles are counters, lengths and status codes.  A string is a
    sequence of code units, one [ascii] each.  Objects keep their
    properties in insertion order, which is the order [JSON.stringify]
    prints them in.  [error m] is an [Error] instance with message [m],
    and [error_of c m] an instance of another error class, [c] being its
    name ([TypeError], [AssertionError], ...). *)
Inductive value : Type :=
| undefined
| null
| boolean (b : bool)
| number (n : Z)
| str (s : string)
| array (xs : list value)
| object (props : list (string * value))
| error (message : string)
| error_of (class message : string).

(** ToBoolean, as applied by [if (v)], [!v], [a && b] and [a || b]. *)
Definition truthy (v : value) : bool :=
  match v with
  | undefined | null => false
  | boolean b => b
  | number n => negb (n =? 0)%Z
  | str s => negb (s =? EmptyString)
  | array _ | object _ | error _ | error_of _ _ => true
  end.

(** [a || b] and [a && b] on values. *)
Definition or (a b : value) : value := if truthy a then a else b.
Definition and (a b : value) : value := if truthy a then b else a.

(** Reading a property of [undefined] or [null] throws a TypeError. *)
Definition nullish (v : value) : bool :=
  match v with
  | undefined | null => true
  | _ => false
  end.

Fixpoint lookup (k : string) (props : list (string * value)) : value :=
  match props with
  | [] => undefined
  | (k', v) :: rest => if k' =? k then v else lookup k rest
  end.

(** [v.k] for a value that is not nullish; data properties only. *)
Definition get (v : value) (k : string) : value :=
  match v with
  | object props => lookup k props
  | error m | error_of _ m => if k =? "message" then str m else undefined
  | str s => if k =? "length" then number (Z.of_nat (String.length s))
             else undefined
  | array xs => if k =? "length" then number (Z.of_nat (List.length xs))
                else undefined
  | _ => undefined
  end.

(** [o.k = v]: an existing property keeps its place, a new one is
    appended. *)
Fixpoint assign (k : string) (v : value) (props : list (string * value))
  : list (string * value) :=
  match props with
  | [] => [(k, v)]
  | (k', v') :: rest =>
      if k' =? k then (k, v) :: rest else (k', v') :: assign k v rest
  end.

(** [v === 'literal']. *)
Definition is_string (v : value) (s : string) : bool :=
  match v with
  | str t => t =? s
  | _ => false
  end.

(** [s.substr(0, n)]. *)
Definition substr0 (n : nat) (s : string) : string := substring 0 n s.

(** [s.slice(-n)]: the last [n] code units. *)
Definition slice_last (n : nat) (s : string) : string :=
  substring (String.length s - n) n s.

Definition string_of_Z (n : Z) : string :=
  NilZero.string_of_int (Z.to_int n).

Definition dquote : string := String "034"%char EmptyString.
Definition backslash : string := String "092"%char EmptyString.

Definition hex_digit (n : N) : ascii :=
  ascii_of_N (if (n <? 10)%N then 48 + n else 87 + n)%N.

(** The escape [JSON.stringify] prints for one code unit. *)
Definition escape_char (c : ascii) : string :=
  let n := N_of_ascii c in
  if (n =? 34)%N then backslash ++ dquote
  else if (n =? 92)%N then backslash ++ backslash
  else if (n =? 8)%N then backslash ++ "b"
  else if (n =? 12)%N then backslash ++ "f"
  else if (n =? 10)%N then backslash ++ "n"
  else if (n =? 13)%N then backslash ++ "r"
  else if (n =? 9)%N then backslash ++ "t"
  else if (n <? 32)%N then
    backslash ++ "u00" ++
      String (hex_digit (n / 16)) (String (hex_digit (n mod 16)) EmptyString)
  else String c EmptyString.

Fixpoint escape (s : string) : string :=
  match s with
  | EmptyString => EmptyString
  | String c rest => escape_char c ++ escape rest
  end.

Definition quote (s : string) : string := dquote ++ escape s ++ dquote.

(** [JSON.stringify(v)]; [None] is the result [undefined].  A property
    whose value is [undefined] is left out of an object, an [undefined]
    array element prints as [null], and an [Error] has no enumerable
    property. *)
Fixpoint stringify (v : value) : option string :=
  match v with
  | undefined => None
  | null => Some "null"
  | boolean b => Some (if b then "true" else "false")
  | number n => Some (string_of_Z n)
  | str s => Some (quote s)
  | array xs =>
      Some ("[" ++ String.concat ","
              (map (fun x => match stringify x with
                             | Some s => s
                             | None => "null"
                             end) xs) ++ "]")
  | object props =>
      Some ("{" ++ String.concat ","
              (flat_map (fun kv => match stringify (snd kv) with
                                   | Some s => [quote (fst kv) ++ ":" ++ s]
                                   | None => []
                                   end) props) ++ "}")
  | error _ | error_of _ _ => Some "{}"
  end.

(** ToString, as applied by [new Error(v)] to its argument; on an
    error it is [Error.prototype.toString]. *)
Fixpoint to_string (v : value) : string :=
  match v with
  | undefined => "undefined"
  | null => "null"
  | boolean b => if b then "true" else "false"
  | number n => string_of_Z n
  | str s => s
  | array xs =>
      String.concat ","
        (map (fun x => if nullish x then EmptyString else to_string x) xs)
  | object _ => "[object Object]"
  | error m => if m =? EmptyString then "Error" else "Error: " ++ m
  | error_of c m =>
      if c =? EmptyString then m
      else if m =? EmptyString then c
      else c ++ ": " ++ m
  end.

(** [new Error(v)]: without an argument the message is empty. *)
Definition new_Error (v : value) : value :=
  match v with
  | undefined => error EmptyString
  | _ => error (to_string v)
  end.

(** A computation that returns normally or throws. *)
Inductive completion (A : Type) : Type :=
| Normal (a : A)
| Throw (exn : string).
Arguments Normal {A} a.
Arguments Throw {A} exn.

Definition bind {A B : Type} (c : completion A) (k : A -> completion B)
  : completion B :=
  match c with
  | Normal a => k a
  | Throw exn => Throw exn
  end.

End JS.

Notation "x <- c ;; k" := (JS.bind c (fun x => k))
  (at level 61, c at next level, right associativity).

(* ================================================================= *)
(** ** The response object *)

Module Http.

(** The calls made on a response [res], in order. *)
Inductive res_event : Type :=
| Status (code : Z)
| Header (name val : string)
| Write (chunk : string)
| End_
| Send (body : JS.value).

Definition response : Type := list res_event.

(** The chunks written so far, and the body they add up to. *)
Definition chunks (res : response) : list string :=
  flat_map (fun e => match e with Write c => [c] | _ => [] end) res.

Definition body (res : response) : string :=
  fold_right String.append EmptyString (chunks res).

End Http.

(* ================================================================= *)
(** ** lib/common.js *)

Module Common.
Import JS Http.

(* ----------------------------------------------------------------- *)
(** *** Raw multiplexed frames *)

Inductive stream_type : Type := stdin | stdout | stderr.

Definition STREAM_TYPES (type : stream_type) : N :=
  match type with
  | stdin => 0
  | stdout => 1
  | stderr => 2
  end.

(** [data] is a string, given by its UTF-16 code units, or a [Buffer],
    given by its bytes. *)
Inductive chunk : Type :=
| Text (units : list N)
| Bytes (bytes : list N).

(** [data.length]: code units of a string, bytes of a [Buffer]. *)
Definition chunk_length (data : chunk) : nat :=
  match data with
  | Text us => List.length us
  | Bytes bs => List.length bs
  end.

Definition is_lead (u : N) : bool := ((0xD800 <=? u) && (u <=? 0xDBFF))%N.
Definition is_trail (u : N) : bool := ((0xDC00 <=? u) && (u <=? 0xDFFF))%N.

(** The code points of a string; a surrogate without its partner counts
    as U+FFFD when the string is encoded. *)
Fixpoint code_points (us : list N) : list N :=
  match us with
  | [] => []
  | u :: rest =>
      if is_lead u then
        match rest with
        | t :: rest' =>
            if is_trail t then
              (0x10000 + N.shiftl (u - 0xD800) 10 + (t - 0xDC00))%N
                :: code_points rest'
            else 0xFFFD%N :: code_points rest
        | [] => [0xFFFD%N]
        end
      else if is_trail u then 0xFFFD%N :: code_points rest
      else u :: code_points rest
  end.

(** The UTF-8 bytes of one code point. *)
Definition utf8_char (cp : N) : list N :=
  (if cp <? 0x80 then [cp]
   else if cp <? 0x800 then
     [N.lor 0xC0 (N.shiftr cp 6); N.lor 0x80 (N.land cp 0x3F)]
   else if cp <? 0x10000 then
     [N.lor 0xE0 (N.shiftr cp 12);
      N.lor 0x80 (N.land (N.shiftr cp 6) 0x3F);
      N.lor 0x80 (N.land cp 0x3F)]
   else
     [N.lor 0xF0 (N.shiftr cp 18);
      N.lor 0x80 (N.land (N.shiftr cp 12) 0x3F);
      N.lor 0x80 (N.land (N.shiftr cp 6) 0x3F);
      N.lor 0x80 (N.land cp 0x3F)])%N.

Definition utf8 (us : list N) : list N := flat_map utf8_char (code_points us).

(** The bytes [buf.write(string, offset)] stores when [room] bytes are
    left from [offset]: whole characters only, as long as they fit. *)
Fixpoint utf8_fit (cps : list N) (room : nat) : list N :=
  match cps with
  | [] => []
  | cp :: rest =>
      let bs := utf8_char cp in
      if (List.length bs <=? room)%nat
      then (bs ++ utf8_fit rest (room - List.length bs))%list
      else []
  end.

(** UTF-8 decoding as [buf.toString()] does it: a byte sequence that is
    not well formed yields U+FFFD. *)
Record decoder : Type := {
  cp : N;          (* bits collected so far *)
  needed : nat;    (* continuation bytes still expected *)
  lower : N;       (* bounds of the next continuation byte *)
  upper : N
}.

Definition idle : decoder := {| cp := 0; needed := 0; lower := 0x80; upper := 0xBF |}.

Definition decode_first (b : N) : decoder * list N :=
  (if b <=? 0x7F then (idle, [b])
   else if (0xC2 <=? b) && (b <=? 0xDF) then
     ({| cp := N.land b 0x1F; needed := 1; lower := 0x80; upper := 0xBF |}, [])
   else if (0xE0 <=? b) && (b <=? 0xEF) then
     ({| cp := N.land b 0xF; needed := 2;
         lower := if b =? 0xE0 then 0xA0 else 0x80;
         upper := if b =? 0xED then 0x9F else 0xBF |}, [])
   else if (0xF0 <=? b) && (b <=? 0xF4) then
     ({| cp := N.land b 0x7; needed := 3;
         lower := if b =? 0xF0 then 0x90 else 0x80;
         upper := if b =? 0xF4 then 0x8F else 0xBF |}, [])
   else (idle, [0xFFFD]))%N.

Definition decode_step (d : decoder) (b : N) : decoder * list N :=
  match needed d with
  | O => decode_first b
  | S n =>
      if ((lower d <=? b) && (b <=? upper d))%N then
        let c := N.lor (N.shiftl (cp d) 6) (N.land b 0x3F) in
        match n with
        | O => (idle, [c])
        | S _ => ({| cp := c; needed := n; lower := 0x80; upper := 0xBF |}, [])
        end
      else
        let '(d', out) := decode_first b in (d', 0xFFFD%N :: out)
  end.

Fixpoint decode_from (d : decoder) (bs : list N) : list N :=
  match bs with
  | [] => match needed d with O => [] | S _ => [0xFFFD%N] end
  | b :: rest =>
      let '(d', out) := decode_step d b in (out ++ decode_from d' rest)%list
  end.

(** The code units of a code point. *)
Definition utf16_char (c : N) : list N :=
  (if c <? 0x10000 then [c]
   else [0xD800 + N.shiftr (c - 0x10000) 10;
         0xDC00 + N.land (c - 0x10000) 0x3FF])%N.

(** [data.toString()]. *)
Definition chunk_toString (data : chunk) : list N :=
  match data with
  | Text us => us
  | Bytes bs => flat_map utf16_char (decode_from idle bs)
  end.

(** A [Buffer] is the list of its bytes.  [new Buffer(n)] does not clear
    its memory: [heap i] is the byte found at offset [i].  The limit of
    the platform on the size of a [Buffer] is left out. *)
Definition new_Buffer (heap : nat -> N) (n : nat) : list N :=
  map heap (seq 0 n).

(** [buf[i] = v]; nothing happens out of range. *)
Fixpoint set_byte (i : nat) (v : N) (buf : list N) : list N :=
  match buf, i with
  | [], _ => []
  | _ :: rest, O => v :: rest
  | b :: rest, S i' => b :: set_byte i' v rest
  end.

(** Bytes stored from [offset] on; the caller makes them fit. *)
Fixpoint blit (offset : nat) (bs : list N) (buf : list N) : list N :=
  match bs with
  | [] => buf
  | b :: rest => blit (S offset) rest (set_byte offset b buf)
  end.

Definition writeUInt8 (v : N) (offset : nat) (buf : list N)
  : completion (list N) :=
  if (0xFF <? v)%N || (List.length buf <? offset + 1)%nat
  then Throw "RangeError"
  else Normal (set_byte offset v buf).

Definition writeUInt32BE (v : N) (offset : nat) (buf : list N)
  : completion (list N) :=
  if (0xFFFFFFFF <? v)%N || (List.length buf <? offset + 4)%nat
  then Throw "RangeError"
  else Normal
    (blit offset [N.land (N.shiftr v 24) 0xFF; N.land (N.shiftr v 16) 0xFF;
                  N.land (N.shiftr v 8) 0xFF; N.land v 0xFF] buf).

(** [buf.write(string, offset)] *)
Definition buffer_write (s : list N) (offset : nat) (buf : list N) : list N :=
  blit offset (utf8_fit (code_points s) (List.length buf - offset)) buf.

(** [writeToDockerRawStream]: [stream] is the list of the buffers written
    to the stream so far; the result has the new message at its end. *)
Definition writeToDockerRawStream (heap : nat -> N) (type : stream_type)
    (stream : list (list N)) (data : chunk) : completion (list (list N)) :=
  let streamType := STREAM_TYPES type in
  let messageSize := chunk_length data in
  let message := new_Buffer heap (8 + messageSize) in
  message <- writeUInt8 streamType 0 message ;;
  let message := set_byte 1 0%N message in
  let message := set_byte 2 0%N message in
  let message := set_byte 3 0%N message in
  message <- writeUInt32BE (N.of_nat messageSize) 4 message ;;
  let message := buffer_write (chunk_toString data) 8 message in
  Normal (stream ++ [message])%list.

(** The payload of a frame made from [data]: the bytes of a [Buffer],
    the UTF-8 bytes of a string. *)
Definition payload (data : chunk) : list N :=
  match data with
  | Text us => utf8 us
  | Bytes bs => bs
  end.

(** The four bytes [writeUInt32BE] stores, and text all of whose code
    units are ASCII. *)
Definition be32 (v : N) : list N :=
  [N.land (N.shiftr v 24) 0xFF; N.land (N.shiftr v 16) 0xFF;
   N.land (N.shiftr v 8) 0xFF; N.land v 0xFF].

Definition ascii_only (us : list N) : Prop :=
  Forall (fun u => (u < 0x80)%N) us.

(** Modelled from the spec: the decoder of raw multiplexed frames, which
    is not part of the sources.  It reads the channel code, skips the
    three reserved bytes, reads the big-endian length and rejects a frame
    whose declared length does not match the payload that follows. *)
Definition stream_type_of_code (c : N) : option stream_type :=
  (if c =? 0 then Some stdin
   else if c =? 1 then Some stdout
   else if c =? 2 then Some stderr
   else None)%N.

Definition readUInt32BE (b3 b2 b1 b0 : N) : N :=
  (b3 * 2 ^ 24 + b2 * 2 ^ 16 + b1 * 2 ^ 8 + b0)%N.

Definition decodeFrame (frame : list N) : option (stream_type * list N) :=
  match frame with
  | c :: _ :: _ :: _ :: b3 :: b2 :: b1 :: b0 :: rest =>
      match stream_type_of_code c with
      | Some type =>
          if (readUInt32BE b3 b2 b1 b0 =? N.of_nat (List.length rest))%N
          then Some (type, rest)
          else None
      | None => None
      end
  | _ => None
  end.

(* ----------------------------------------------------------------- *)
(** *** Progress messages *)

(** [formatProgress]: [args] is the property list of the object passed.
    [args.id.substr] is a function on strings only. *)
Definition formatProgress (args : list (string * value))
  : completion (list (string * value)) :=
  let progress := [] in
  id <- (if truthy (lookup "id" args) then
           match lookup "id" args with
           | str s => Normal (str (substr0 12 s))
           | _ => Throw "TypeError"
           end
         else Normal (lookup "id" args)) ;;
  let progress := assign "id" (or id (str EmptyString)) progress in
  let progress := assign "status" (lookup "status" args) progress in
  let progress :=
    assign "progressDetail" (lookup "progressDetail" args) progress in
  Normal progress.

(** [res.write(JSON.stringify(o))] for an object [o]. *)
Definition write_json (res : response) (o : list (string * value))
  : response :=
  match stringify (object o) with
  | Some s => (res ++ [Write s])%list
  | None => res
  end.

(** [writeProgress]: returns the response and the object [progress],
    which it may have changed. *)
Definition writeProgress (res : response) (progress : list (string * value))
  : completion (response * list (string * value)) :=
  let progress :=
    if negb (truthy (lookup "progressDetail" progress))
    then assign "progressDetail" (object []) progress
    else progress in
  formatted <- formatProgress progress ;;
  Normal (write_json res formatted, progress).

(** [writeStatus] *)
Definition writeStatus (res : response) (progress : list (string * value))
  : completion response :=
  formatted <- formatProgress progress ;;
  Normal (write_json res formatted).

(* ----------------------------------------------------------------- *)
(** *** Waiting for a workflow job *)

(** What the code does to the outside while it polls. *)
Inductive effect : Type :=
| GetJob (job_uuid : string)
| SetTimeout (ms : Z).

(** The workflow client: [getJob c uuid n] is the pair [(err, job)] that
    the client passes to the callback of the [n]-th call (from 0) of
    [client.getJob(uuid, ...)]. *)
Record wfClient : Type := { getJob : string -> nat -> value * value }.

Definition timeout : Z := 1000.
Definition limit : nat := 720.

(** The body of [poll] in [pollJob].  [attempts] and [errors] are the
    two counters of the closure; the result is the trace of effects and
    the arguments [(err, job)] of the call of [cb], or [None] when [fuel]
    polls did not reach a call of [cb]. *)
Fixpoint poll (fuel : nat) (client : wfClient) (job_uuid : string)
    (attempts errors : nat) : list effect * option (value * value) :=
  match fuel with
  | O => ([], None)
  | S fuel' =>
      let '(err, job) := getJob client job_uuid attempts in
      let attempts := S attempts in
      if truthy err then
        let errors := S errors in
        if (5 <=? errors)%nat then
          ([GetJob job_uuid], Some (err, undefined))
        else
          let '(tr, r) := poll fuel' client job_uuid attempts errors in
          (GetJob job_uuid :: SetTimeout timeout :: tr, r)
      else if truthy job && is_string (get job "execution") "succeeded" then
        ([GetJob job_uuid], Some (null, job))
      else if truthy job && is_string (get job "execution") "failed" then
        ([GetJob job_uuid], Some (null, job))
      else if (limit <? attempts)%nat then
        ([GetJob job_uuid],
         Some (new_Error (str "polling for job timed out"), job))
      else
        let '(tr, r) := poll fuel' client job_uuid attempts errors in
        (GetJob job_uuid :: SetTimeout timeout :: tr, r)
  end.

(** [pollJob]: the counters start at 0.  No run needs more than
    [limit + 5] polls (see [pollJob_returns]). *)
Definition pollJob (client : wfClient) (job_uuid : string)
  : list effect * option (value * value) :=
  poll (limit + 5) client job_uuid 0 0.

(** How [waitForJob] ends: it calls [cb(err)] ([cb()] is
    [Callback undefined]), or the callback it gave to [pollJob] throws. *)
Inductive outcome : Type :=
| Callback (err : value)
| Uncaught (exn : string).

(** The callback [waitForJob] passes to [pollJob]. *)
Definition onPolled (err job : value) : outcome :=
  if truthy err then Callback err
  else if nullish job then Uncaught "TypeError"
  else
    match get job "chain_results" with
    | array xs =>
        (* job.chain_results.pop() *)
        let result := last xs undefined in
        if nullish result then Uncaught "TypeError"
        else
          let err := get result "error" in
          if truthy err then
            let errmsg :=
              or (get err "message")
                 (match stringify err with
                  | Some s => str s
                  | None => undefined
                  end) in
            Callback (new_Error errmsg)
          else Callback undefined
    | _ => Uncaught "TypeError"
    end.

Definition waitForJob (client : wfClient) (job_uuid : string)
  : list effect * option outcome :=
  let '(tr, r) := pollJob client job_uuid in
  (tr, match r with
       | Some (err, job) => Some (onPolled err job)
       | None => None
       end).

(* ----------------------------------------------------------------- *)
(** *** Reading a run of the poll loop *)

(** A job in one of the two states [pollJob] stops at. *)
Definition terminal (job : value) : bool :=
  truthy job
  && (is_string (get job "execution") "succeeded"
      || is_string (get job "execution") "failed").

(** The [i]-th answer of the client does not by itself end the polling:
    it is a fetch error, or a job that is not terminal while [attempts]
    (then [S i]) does not exceed [limit]. *)
Definition keeps_polling (client : wfClient) (job_uuid : string) (i : nat)
  : bool :=
  let '(err, job) := getJob client job_uuid i in
  truthy err || (negb (terminal job) && (S i <=? limit)%nat).

(** The number of fetch errors among the first [k] answers. *)
Fixpoint errors_before (client : wfClient) (job_uuid : string) (k : nat)
  : nat :=
  match k with
  | O => 0
  | S k' =>
      errors_before client job_uuid k'
      + (if truthy (fst (getJob client job_uuid k')) then 1 else 0)
  end.

(** The trace of [k] polls, each followed by the timer for the next. *)
Fixpoint polling (job_uuid : string) (k : nat) : list effect :=
  match k with
  | O => []
  | S k' => GetJob job_uuid :: SetTimeout timeout :: polling job_uuid k'
  end.

(** The number of calls of [getJob] in a trace, and the delays of the
    timers set, in milliseconds. *)
Definition polls (tr : list effect) : nat :=
  List.length (filter (fun e => match e with GetJob _ => true | _ => false end)
                      tr).

Definition waits (tr : list effect) : list Z :=
  flat_map (fun e => match e with SetTimeout ms => [ms] | _ => [] end) tr.

(* ----------------------------------------------------------------- *)
(** *** Progress events on a response *)

(** A progress event as the spec types it: the identifier and the status
    are strings, the detail is an object, and the identifier and the
    detail may be missing. *)
Definition optional_string (v : value) : bool :=
  match v with
  | str _ => true
  | _ => negb (truthy v)
  end.

Definition optional_object (v : value) : bool :=
  match v with
  | object _ => true
  | _ => negb (truthy v)
  end.

Definition short_id (v : value) : string :=
  match v with
  | str s => substr0 12 s
  | _ => EmptyString
  end.

Definition detail_or_empty (v : value) : value :=
  match v with
  | object d => object d
  | _ => object []
  end.

(** The object [writeProgress] serializes for a typed event. *)
Definition progress_object (progress : list (string * value))
  : list (string * value) :=
  [("id", str (short_id (lookup "id" progress)));
   ("status", lookup "status" progress);
   ("progressDetail", detail_or_empty (lookup "progressDetail" progress))].

Definition typed_event (progress : list (string * value)) : bool :=
  optional_string (lookup "id" progress)
  && optional_object (lookup "progressDetail" progress).

(** One member of a printed object. *)
Definition member (k text : string) : string := quote k ++ ":" ++ text.

Definition progress_json (progress : list (string * value)) : string :=
  match stringify (object (progress_object progress)) with
  | Some s => s
  | None => EmptyString
  end.

(** A handler that reports the events one after the other. *)
Fixpoint writeProgressAll (res : response)
    (events : list (list (string * value))) : completion response :=
  match events with
  | [] => Normal res
  | progress :: rest =>
      r <- writeProgress res progress ;;
      writeProgressAll (fst r) rest
  end.

End Common.

(* ================================================================= *)
(** ** lib/endpoints/images.js *)

Module Images.
Import JS Http.

(** The errors the handlers make with the constructors of
    [lib/errors.js]. *)
Inductive api_error : Type :=
| DockerError (cause message : value)
| NotImplementedError (feature : string)
| ValidationError (cause message : value)
| ResourceNotFoundError (message : string).

(** Modelled from the spec: the HTTP status of an error class.
    [lib/errors.js] is not part of the sources; the spec gives 501 to
    [NotImplementedError] and 404 to [ResourceNotFoundError], says of
    [ValidationError] only that it is a client error, and does not
    mention [DockerError]. *)
Definition statusCode (e : api_error) : option Z :=
  match e with
  | NotImplementedError _ => Some 501%Z
  | ResourceNotFoundError _ => Some 404%Z
  | ValidationError _ _ | DockerError _ _ => None
  end.

(** The argument of [next]: nothing, [false], an error made here, or an
    error handed over by a collaborator. *)
Inductive next_arg : Type :=
| NextOk
| NextFalse
| NextErr (e : api_error)
| NextPass (err : value).

(** What a handler does, in order. *)
Inductive event : Type :=
| Res (e : res_event)
| Backend (method : string) (opts : value)
| ConnSetTimeout (ms : Z)
| RemoveSocket (kind : string) (name : value)
| RegistryCall (op : string) (arg : value)
| Next (a : next_arg)
| Thrown (exn : string).

(** A parse function of docker-registry-client returns an object or
    throws; [ParseError e] is a throw of the value [e]. *)
Inductive parsed : Type :=
| Parsed (rat : list (string * value))
| ParseError (e : value).

(** docker-registry-client.  [search name term] is the pair
    [(err, body)] the registry client calls back with. *)
Record registry : Type := {
  parseRepoAndRef : value -> parsed;
  parseRepoAndTag : value -> parsed;
  parseRepo : value -> parsed;
  search : value -> value -> value * value
}.

(** [req.backend]: what a call writes to [res] before it calls back,
    and the error it calls back with. *)
Record backend : Type := {
  pullImage : list (string * value) -> list res_event;
  pushImage : value -> list (string * value) -> string
              -> list res_event * value;
  tagImage : value -> value -> value
}.

Record request : Type := {
  query : list (string * value);
  params : list (string * value);
  images : list value;
  imageTags : list value;
  image : value
}.

Definition is_undefined (v : value) : bool :=
  match v with
  | undefined => true
  | _ => false
  end.

(** [typeof v === 'object' && v !== null], the test of
    [assert.arrayOfObject] on each element. *)
Definition is_object (v : value) : bool :=
  match v with
  | object _ | array _ | error _ | error_of _ _ => true
  | _ => false
  end.

Definition CRLF : string :=
  String "013"%char (String "010"%char EmptyString).

(** The test [all] of [imageCreate], for [docker pull -a]. *)
Definition pull_all (req : request) (rat : list (string * value))
  : completion bool :=
  if truthy (lookup "tag" (query req)) then Normal false
  else if negb (is_string (lookup "tag" rat) "latest") then Normal false
  else
    match lookup "fromImage" (query req) with
    | str s => Normal (negb (slice_last 7 s =? ":latest"))
    | array _ => Normal true
    | _ => Throw "TypeError"
    end.

(** The update of [rat] by [req.query.tag] in [imageCreate]. *)
Definition apply_tag (req : request) (rat : list (string * value))
  : completion (list (string * value)) :=
  let tag := lookup "tag" (query req) in
  if truthy tag then
    match tag with
    | str t =>
        if substr0 7 t =? "sha256:"
        then Normal (assign "tag" (str EmptyString) (assign "digest" tag rat))
        else Normal (assign "tag" tag rat)
    | _ => Throw "TypeError"
    end
  else Normal rat.

(** [POST /images/create] *)
Definition imageCreate (drc : registry) (be : backend) (req : request)
  : list event :=
  if negb (is_undefined (lookup "fromSrc" (query req))) then
    [Next (NextErr (NotImplementedError "image create"))]
  else
    ConnSetTimeout (150 * 1000) ::
    match parseRepoAndRef drc (lookup "fromImage" (query req)) with
    | ParseError e =>
        if nullish e then [Thrown "TypeError"]
        else [Next (NextErr (DockerError e (str (to_string e))))]
    | Parsed rat =>
        match pull_all req rat with
        | Throw exn => [Thrown exn]
        | Normal true => [Next (NextErr (NotImplementedError "docker pull -a"))]
        | Normal false =>
            match apply_tag req rat with
            | Throw exn => [Thrown exn]
            | Normal rat =>
                [Res (Status 200);
                 Res (Header "Content-Type" "application/json");
                 Backend "pullImage" (object rat)]
                ++ map Res (pullImage be rat)
                ++ [RemoveSocket "job" (lookup "canonicalName" rat);
                    Res End_; Next NextFalse]
            end
        end
    end%list.

(** The pipeline of [imagePush] over [req.images]; [idx] counts the
    images pushed so far.  The final callback ends the response whether
    or not a push failed. *)
Fixpoint pushImages (be : backend) (req : request)
    (rat : list (string * value)) (idx : nat) (inputs : list value)
  : list event :=
  match inputs with
  | [] => [Res End_; Next NextOk]
  | img :: rest =>
      let imageTag := nth idx (imageTags req) undefined in
      if nullish imageTag then [Thrown "TypeError"]
      else
        let rat := assign "tag" (get imageTag "tag") rat in
        let repoAndTag :=
          to_string (lookup "canonicalName" rat) ++ ":"
            ++ to_string (lookup "tag" rat) in
        let '(written, err) := pushImage be img rat repoAndTag in
        (Backend "pushImage"
           (object [("image", img); ("rat", object rat);
                    ("repoAndTag", str repoAndTag)])
         :: map Res written
         ++ (if truthy err then [Res End_; Next NextOk]
             else pushImages be req rat (S idx) rest))%list
  end.

(** [POST /images/:name/push] *)
Definition imagePush (drc : registry) (be : backend) (req : request)
  : list event :=
  if negb (forallb is_object (images req)
           && forallb is_object (imageTags req))
  then [Thrown "AssertionError"]
  else
    match parseRepoAndTag drc (lookup "name" (params req)) with
    | ParseError e =>
        if nullish e then [Thrown "TypeError"]
        else [Next (NextErr (DockerError e (get e "message")))]
    | Parsed rat =>
        let msgPayload :=
          [("status",
            str ("The push refers to a repository ["
                 ++ to_string (lookup "canonicalName" rat) ++ "]"))] in
        ([Res (Status 200);
          Res (Header "Content-Type" "application/json");
          Res (Write
                 (match stringify (object msgPayload) with
                  | Some s => s
                  | None => "undefined"
                  end ++ CRLF))]
         ++ pushImages be req rat 0 (images req))%list
    end.

(** [GET /images/:name/changes] *)
Definition imageChanges (req : request) : list event :=
  [Next (NextErr (NotImplementedError "image changes"))].

(** The name in the format [repo:tag] that [imageTag] builds. *)
Definition repoAndTag_of (req : request) : value :=
  let repoAndTag := or (lookup "repo" (query req)) (str EmptyString) in
  if truthy (lookup "tag" (query req))
  then str (to_string repoAndTag ++ ":"
            ++ to_string (lookup "tag" (query req)))
  else repoAndTag.

(** [POST /images/:name/tag] *)
Definition imageTag (drc : registry) (be : backend) (req : request)
  : list event :=
  let repoAndTag := repoAndTag_of req in
  match parseRepoAndTag drc repoAndTag with
  | ParseError e =>
      if nullish e then [Thrown "TypeError"]
      else [Next (NextErr (DockerError e (get e "message")))]
  | Parsed _ =>
      Backend "tagImage" (object [("img", image req); ("name", repoAndTag)])
      :: (if truthy (tagImage be (image req) repoAndTag)
          then [Next (NextPass (tagImage be (image req) repoAndTag))]
          else [Res (Status 201); Res End_; Next NextOk])
  end.

(** [GET /images/search] *)
Definition imageSearch (drc : registry) (req : request) : list event :=
  match parseRepo drc (lookup "term" (query req)) with
  | ParseError parseErr =>
      if nullish parseErr then [Thrown "TypeError"]
      else [Next (NextErr (ValidationError parseErr
                                           (get parseErr "message")))]
  | Parsed repo =>
      let index := lookup "index" repo in
      if nullish index then [Thrown "TypeError"]
      else
        let term :=
          if truthy (get index "official")
          then lookup "localName" repo
          else lookup "remoteName" repo in
        let '(err, body) := search drc (lookup "canonicalName" repo) term in
        [RegistryCall "createClientV1" (lookup "canonicalName" repo);
         RegistryCall "search" term;
         RegistryCall "close" undefined]
        ++ (if truthy err then [Next (NextPass err)]
            else if nullish body then [Thrown "TypeError"]
            else [Res (Send (get body "results")); Next NextOk])
  end%list.

(** [GET /images/:name/get] *)
Definition imageGet (req : request) : list event :=
  [Next (NextErr (NotImplementedError "image get"))].

(** [POST /images/:name/load] *)
Definition imageLoad (req : request) : list event :=
  [Next (NextErr (NotImplementedError "image load"))].

(** The calls to the backend and to the registry among the events. *)
Definition is_call (e : event) : bool :=
  match e with
  | Backend _ _ | RegistryCall _ _ => true
  | _ => false
  end.

(** The error a handler ends with, if it ends with one of its own. *)
Fixpoint failure (evs : list event) : option api_error :=
  match evs with
  | [] => None
  | Next (NextErr e) :: _ => Some e
  | _ :: rest => failure rest
  end.

(** The response a handler leaves behind. *)
Definition response_of (evs : list event) : response :=
  flat_map (fun e => match e with Res r => [r] | _ => [] end) evs.

(** The endpoints that parse a repo or tag reference: the handler, the
    reference it parses, the parse function it uses, and what a request
    needs for the handler to get as far as parsing. *)
Inductive endpoint : Type := Create | Push | Tag | Search.

Definition handle (ep : endpoint) (drc : registry) (be : backend)
    (req : request) : list event :=
  match ep with
  | Create => imageCreate drc be req
  | Push => imagePush drc be req
  | Tag => imageTag drc be req
  | Search => imageSearch drc req
  end.

Definition reference (ep : endpoint) (req : request) : value :=
  match ep with
  | Create => lookup "fromImage" (query req)
  | Push => lookup "name" (params req)
  | Tag => repoAndTag_of req
  | Search => lookup "term" (query req)
  end.

Definition parser (ep : endpoint) (drc : registry) : value -> parsed :=
  match ep with
  | Create => parseRepoAndRef drc
  | Push | Tag => parseRepoAndTag drc
  | Search => parseRepo drc
  end.

Definition parses (ep : endpoint) (req : request) : bool :=
  match ep with
  | Create => is_undefined (lookup "fromSrc" (query req))
  | Push => forallb is_object (images req)
            && forallb is_object (imageTags req)
  | Tag | Search => true
  end.

End Images.

(* ================================================================= *)
(** ** The resource resolver *)

Module Resolver.
Import JS Common.

(** Modelled from the spec: the data model of named resources (section 3)
    and the resolver contract (section 4.3).  The code that creates,
    lists and removes volumes is not part of the sources, which only
    hold the regression test for DOCKER-880 that drives it. *)
Inductive kind : Type := image_ | tag_ | volume.
Inductive state : Type := creating | ready | deleting | failed.

Record NamedResource : Type := {
  id : nat;
  name : string;
  rkind : kind;
  rstate : state;
  created : nat;
  account : string
}.

(** Modelled from the spec: the backend datastore, which owns the
    records.  It hands out identifiers and creation timestamps that it
    never hands out again. *)
Record store : Type := {
  records : list NamedResource;
  next_id : nat;
  now : nat
}.

Definition kind_eqb (k1 k2 : kind) : bool :=
  match k1, k2 with
  | image_, image_ | tag_, tag_ | volume, volume => true
  | _, _ => false
  end.

Definition is_ready (r : NamedResource) : bool :=
  match rstate r with
  | ready => true
  | _ => false
  end.

Definition matches (a : string) (k : kind) (n : string) (r : NamedResource)
  : bool :=
  (account r =? a) && kind_eqb (rkind r) k && (name r =? n).

Definition with_state (st : state) (r : NamedResource) : NamedResource :=
  {| id := id r; name := name r; rkind := rkind r; rstate := st;
     created := created r; account := account r |}.

Definition set_state (i : nat) (st : state) (s : store) : store :=
  {| records := map (fun r => if (id r =? i)%nat then with_state st r else r)
                    (records s);
     next_id := next_id s; now := now s |}.

Definition remove (i : nat) (s : store) : store :=
  {| records := filter (fun r => negb (id r =? i)%nat) (records s);
     next_id := next_id s; now := now s |}.

(** Modelled from the spec: the backend create, which adds a record in
    state [creating] under a new identifier. *)
Definition insert (a : string) (k : kind) (n : string) (s : store)
  : nat * store :=
  (next_id s,
   {| records := records s ++
                 [{| id := next_id s; name := n; rkind := k;
                     rstate := creating; created := now s; account := a |}];
      next_id := S (next_id s); now := S (now s) |}).

(** The most recently created of [r] and the records of [rs]. *)
Fixpoint most_recent (r : NamedResource) (rs : list NamedResource)
  : NamedResource :=
  match rs with
  | [] => r
  | r' :: rest =>
      most_recent (if (created r <? created r')%nat then r' else r) rest
  end.

(** Modelled from the spec: [resolve].  The flag tells that more than one
    record was [ready]. *)
Definition resolve (a : string) (k : kind) (n : string) (s : store)
  : option (NamedResource * bool) :=
  match filter (fun r => matches a k n r && is_ready r) (records s) with
  | [] => None
  | [r] => Some (r, false)
  | r :: rest => Some (most_recent r rest, true)
  end.

Inductive resolver_error : Type :=
| ResourceNotFoundError
| JobExecutionError (err : value).

Inductive result (A : Type) : Type :=
| Ok (a : A)
| Failed (e : resolver_error).
Arguments Ok {A} a.
Arguments Failed {A} e.

(** Modelled from the spec: [create].  [job] is the outcome of
    [waitForJob] for the job of the backend create. *)
Definition create (a : string) (k : kind) (n : string) (job : outcome)
    (s : store) : result nat * store :=
  let '(i, s) := insert a k n s in
  match job with
  | Callback err =>
      if truthy err then (Failed (JobExecutionError err), set_state i failed s)
      else
        let s := set_state i ready s in
        match resolve a k n s with
        | Some (r, _) => (Ok (id r), s)
        | None => (Failed ResourceNotFoundError, s)
        end
  | Uncaught exn => (Failed (JobExecutionError (str exn)), set_state i failed s)
  end.

(** Modelled from the spec: [delete], which resolves the canonical
    [ready] record first and removes by its identifier. *)
Definition delete (a : string) (k : kind) (n : string) (job : outcome)
    (s : store) : result nat * store :=
  match resolve a k n s with
  | None => (Failed ResourceNotFoundError, s)
  | Some (r, _) =>
      let s := set_state (id r) deleting s in
      match job with
      | Callback err =>
          if truthy err
          then (Failed (JobExecutionError err), set_state (id r) failed s)
          else (Ok (id r), remove (id r) s)
      | Uncaught exn =>
          (Failed (JobExecutionError (str exn)), set_state (id r) failed s)
      end
  end.

(** Modelled from the spec: [list], with an optional name filter. *)
Definition list_ (a : string) (k : kind) (filter_name : option string)
    (s : store) : list NamedResource :=
  filter (fun r =>
            (account r =? a) && kind_eqb (rkind r) k && is_ready r
            && match filter_name with
               | Some n => name r =? n
               | None => true
               end)
         (records s).

(** The number of listed volumes called [n]: what the test counts in the
    output of [docker volume ls]. *)
Definition listed (a n : string) (s : store) : nat :=
  List.length (list_ a volume (Some n) s).

(** The test of [resolve] for a volume of account [a] called [n]. *)
Definition live (a n : string) (r : NamedResource) : bool :=
  matches a volume n r && is_ready r.

(** The record a successful create of such a volume leaves behind, the
    store after that create, and the store after the delete that
    follows. *)
Definition fresh (a n : string) (s : store) : NamedResource :=
  {| id := next_id s; name := n; rkind := volume; rstate := ready;
     created := now s; account := a |}.

Definition created_in (a n : string) (s : store) : store :=
  {| records := records s ++ [fresh a n s];
     next_id := S (next_id s); now := S (now s) |}.

Definition deleted_in (s : store) : store :=
  {| records := records s; next_id := S (next_id s); now := S (now s) |}.

(** No record carries an identifier that is still to be handed out. *)
Definition well_formed (s : store) : Prop :=
  Forall (fun r => id r < next_id s) (records s).

(** What the regression test observes in one create-delete cycle. *)
Record observation : Type := {
  created_id : result nat;
  after_create : nat;
  removed_id : result nat;
  after_delete : nat
}.

(** [k] create-delete cycles of a volume called [n], every job
    succeeding. *)
Fixpoint cycles (k : nat) (a n : string) (s : store) : list observation :=
  match k with
  | O => []
  | S k' =>
      let '(c, s1) := create a volume n (Callback undefined) s in
      let '(d, s2) := delete a volume n (Callback undefined) s1 in
      {| created_id := c; after_create := listed a n s1;
         removed_id := d; after_delete := listed a n s2 |}
      :: cycles k' a n s2
  end.

End Resolver.

(* ================================================================= *)
(** ** Sample inputs *)

Module Samples.
Import JS Http Common Images Resolver.

(** A step that went well, and jobs built around a last step. *)
Definition step_ok : value :=
  object [("result", str "OK"); ("error", str EmptyString);
          ("name", str "cnapi.wait_task")].

Definition job_ending (execution : string) (last_step : value) : value :=
  object [("uuid", str "a1fb11c0");
          ("execution", str execution);
          ("chain_results", array [step_ok; last_step])].

Definition done_job : value := job_ending "succeeded" step_ok.

Definition no_capacity : value :=
  object [("name", str "Error"); ("message", str "no capacity")].


Definition failed_job_plain : value :=
  job_ending "failed" (object [("result", str EmptyString);
                               ("error", object [("code", number 42)])]).

Definition odd_job : value :=
  job_ending "succeeded" (object [("error", no_capacity)]).

Definition running_job : value :=
  object [("uuid", str "a1fb11c0"); ("execution", str "running");
          ("chain_results", array [])].

Definition refused : value := error "connect ECONNREFUSED".

(** A client whose first [n] fetches fail and which then delivers
    [job]. *)
Definition flaky (n : nat) (job : value) : wfClient :=
  {| getJob := fun _ i => if (i <? n)%nat then (refused, undefined)
                          else (null, job) |}.

Definition steady (job : value) : wfClient := flaky 0 job.

(** A registry client that takes no reference for well formed, and one
    that reads every reference as the busybox repository. *)
Definition picky : registry :=
  {| parseRepoAndRef := fun _ => ParseError (error "invalid repository name");
     parseRepoAndTag := fun _ => ParseError (error "invalid repository name");
     parseRepo := fun _ => ParseError (error "invalid repository name");
     search := fun _ _ => (null, object [("results", array [])]) |}.

Definition busybox : list (string * value) :=
  [("index", object [("name", str "docker.io"); ("official", boolean true)]);
   ("canonicalName", str "docker.io/busybox");
   ("localName", str "busybox");
   ("remoteName", str "library/busybox");
   ("tag", str "latest")].

Definition lenient : registry :=
  {| parseRepoAndRef := fun _ => Parsed busybox;
     parseRepoAndTag := fun _ => Parsed busybox;
     parseRepo := fun _ => Parsed busybox;
     search := fun _ _ => (null, object [("results", array [])]) |}.

(** A backend that reports each pushed image with one progress event,
    written by [writeProgress]. *)
Definition reporting : backend :=
  {| pullImage := fun _ => [];
     pushImage := fun img _ _ =>
       (match writeProgress []
                [("id", get img "docker_id"); ("status", str "Pushed")] with
        | Normal (res, _) => res
        | Throw _ => []
        end, null);
     tagImage := fun _ _ => null |}.

Definition bad_pull : request :=
  {| query := [("fromImage", str "Bad Name")]; params := [];
     images := []; imageTags := []; image := undefined |}.

Definition import_request : request :=
  {| query := [("fromSrc", str "-"); ("repo", str "busybox")]; params := [];
     images := []; imageTags := []; image := undefined |}.

Definition push_request : request :=
  {| query := []; params := [("name", str "busybox")];
     images := [object [("docker_id", str "0123456789abcdef0123")]];
     imageTags := [object [("tag", str "latest")]];
     image := undefined |}.


(** A store that holds the leftover of a failed create of the volume
    [foo], and a volume of another name. *)
Definition stale_store : store :=
  {| records :=
       [{| id := 3; name := "foo"; rkind := volume; rstate := failed;
           created := 7; account := "alice" |};
        {| id := 4; name := "bar"; rkind := volume; rstate := ready;
           created := 8; account := "alice" |}];
     next_id := 5; now := 9 |}.

End Samples.

(* ================================================================= *)
(** ** lib/endpoints/images.js: the other handlers *)

Module Handlers.
Import JS Http Images.

(** What the handlers take from elsewhere: [boolFromQueryParam] of a
    later [lib/common.js] than the one at hand, and [unescape]. *)
Record helpers : Type := {
  boolFromQueryParam : value -> value;
  unescape : value -> value
}.

(** The calls of [req.backend] by these handlers; each gives the pair
    the backend calls back with. *)
Record image_backend : Type := {
  listImages : value -> value * value;
  inspectImage : value -> value * value;
  getImageHistory : value -> value * value;
  deleteImage : value -> value * value;
  imgFromName : value -> value * value;
  tagsFromRepoName : value -> value * list value;
  imgFromConfigDigest : value -> value * value
}.

(** A handler yields the events of its run and the request as it leaves
    it. *)
Definition handler : Type := request -> list event * request.

(** A handler that does not change the request. *)
Definition lift (h : request -> list event) : handler :=
  fun req => (h req, req).

(** [GET /images/json] *)
Definition imageList (hp : helpers) (ib : image_backend) (req : request)
  : list event :=
  let options :=
    object [("all", boolFromQueryParam hp (lookup "all" (query req)));
            ("filters", lookup "filters" (query req));
            ("skip_smartos", boolean true)] in
  let '(err, images) := listImages ib options in
  Backend "listImages" options
  :: (if truthy err
      then [Next (NextErr (DockerError err (str "problem loading images")))]
      else [Res (Send images); Next NextOk]).

(** [GET /images/:name/json] *)
Definition imageInspect (ib : image_backend) (req : request) : list event :=
  let opts := object [("name", lookup "name" (params req))] in
  let '(err, image) := inspectImage ib opts in
  Backend "inspectImage" opts
  :: (if truthy err then [Next (NextPass err)]
      else [Res (Send image); Next NextOk]).

(** [GET /images/:name/history] *)
Definition imageHistory (ib : image_backend) (req : request) : list event :=
  let opts := object [("img", image req)] in
  let '(histErr, history) := getImageHistory ib opts in
  Backend "getImageHistory" opts
  :: (if truthy histErr then [Next (NextPass histErr)]
      else [Res (Send history); Next NextOk]).

(** [DELETE /images/:name] *)
Definition imageDelete (hp : helpers) (ib : image_backend) (req : request)
  : list event :=
  let opts :=
    object [("name", lookup "name" (params req));
            ("force", boolFromQueryParam hp (lookup "force" (query req)))] in
  let '(err, history) := deleteImage ib opts in
  Backend "deleteImage" opts
  :: (if truthy err then [Next (NextPass err)]
      else [Res (Send history); Next NextOk]).

Definition with_params (ps : list (string * value)) (req : request)
  : request :=
  {| query := query req; params := ps; images := images req;
     imageTags := imageTags req; image := image req |}.

Definition with_image (img : value) (req : request) : request :=
  {| query := query req; params := params req; images := images req;
     imageTags := imageTags req; image := img |}.

Definition with_images (imgs tags : list value) (req : request) : request :=
  {| query := query req; params := params req; images := imgs;
     imageTags := tags; image := image req |}.

(** [reqParamsName] of [register] *)
Definition reqParamsName (hp : helpers) : handler :=
  fun req =>
    ([Next NextOk],
     with_params (assign "name" (unescape hp (lookup "1" (params req)))
                         (params req)) req).

(** [reqImage] of [register] *)
Definition reqImage (ib : image_backend) : handler :=
  fun req =>
    let opts := object [("name", lookup "name" (params req))] in
    let '(err, img) := imgFromName ib opts in
    if truthy err then
      ([Backend "imgFromName" opts; Next (NextPass err)], req)
    else if negb (truthy img) then
      ([Backend "imgFromName" opts;
        Next (NextErr (ResourceNotFoundError
                         ("No such image: "
                          ++ to_string (lookup "name" (params req)))))],
       req)
    else ([Backend "imgFromName" opts; Next NextOk], with_image img req).

(** How the pipeline of [reqImagesAndTags] ends. *)
Inductive pipeline_end : Type :=
| PipeOk
| PipeErr (err : value)
| PipeThrown (exn : string).

(** [_getImageFromImgTag] over the tags, in order; [found] holds the
    images pushed onto [images] so far. *)
Fixpoint getImages (ib : image_backend) (imgTags found : list value)
  : list event * list value * pipeline_end :=
  match imgTags with
  | [] => ([], found, PipeOk)
  | imgTag :: rest =>
      if nullish imgTag then ([], found, PipeThrown "TypeError")
      else
        let opts :=
          object [("config_digest", get imgTag "config_digest")] in
        let '(err2, img) := imgFromConfigDigest ib opts in
        if truthy err2 then
          ([Backend "imgFromConfigDigest" opts], found, PipeErr err2)
        else
          let '(evs, found', e) := getImages ib rest (found ++ [img]) in
          (Backend "imgFromConfigDigest" opts :: evs, found', e)
  end.

(** [reqImagesAndTags] of [register] *)
Definition reqImagesAndTags (ib : image_backend) : handler :=
  fun req =>
    let opts := object [("repo", lookup "name" (params req));
                        ("tag", lookup "tag" (query req))] in
    let '(err, imgTags) := tagsFromRepoName ib opts in
    if truthy err then
      ([Backend "tagsFromRepoName" opts; Next (NextPass err)], req)
    else
      match imgTags with
      | [] =>
          ([Backend "tagsFromRepoName" opts;
            Next (NextErr
                    (ResourceNotFoundError
                       ("An image does not exist locally with the tag: "
                        ++ to_string (lookup "name" (params req)))))],
           req)
      | _ =>
          let '(evs, found, e) := getImages ib imgTags [] in
          match e with
          | PipeThrown exn =>
              ((Backend "tagsFromRepoName" opts :: evs ++ [Thrown exn])%list,
               req)
          | PipeErr getErr =>
              ((Backend "tagsFromRepoName" opts :: evs
                  ++ [Next (NextPass getErr)])%list,
               with_images found imgTags req)
          | PipeOk =>
              ((Backend "tagsFromRepoName" opts :: evs ++ [Next NextOk])%list,
               with_images found imgTags req)
          end
      end.

(** A chain of handlers: the next handler runs when the one before it
    has ended by calling [next()].  The flag tells whether every handler
    of the chain did. *)
Fixpoint passes (evs : list event) : bool :=
  match evs with
  | [] => false
  | [Next NextOk] => true
  | _ :: rest => passes rest
  end.

Fixpoint run (chain : list handler) (req : request)
  : list event * request * bool :=
  match chain with
  | [] => ([], req, true)
  | h :: rest =>
      let '(evs, req') := h req in
      if passes evs then
        let '(evs', req'', done) := run rest req' in
        ((evs ++ evs')%list, req'', done)
      else (evs, req', false)
  end.

(** The handlers that [register] takes from elsewhere. *)
Record plumbing : Type := {
  before : handler;
  queryParser : handler;
  checkApprovedForProvisioning : handler;
  reqRegAuth : handler
}.

(** The chains that [register] puts on the routes. *)
Inductive route : Type :=
| ImageList | ImageCreate | ImageInspect | ImageHistory | ImagePush
| ImageTag | ImageDelete | ImageSearch | ImageGet | ImageLoad.

Definition chain (pl : plumbing) (hp : helpers) (drc : registry)
    (be : backend) (ib : image_backend) (r : route) : list handler :=
  match r with
  | ImageList => [before pl; queryParser pl; lift (imageList hp ib)]
  | ImageCreate =>
      [before pl; checkApprovedForProvisioning pl; queryParser pl;
       lift (imageCreate drc be)]
  | ImageInspect => [reqParamsName hp; before pl; lift (imageInspect ib)]
  | ImageHistory =>
      [reqParamsName hp; before pl; reqImage ib; lift (imageHistory ib)]
  | ImagePush =>
      [reqParamsName hp; before pl; queryParser pl; reqImagesAndTags ib;
       lift (imagePush drc be)]
  | ImageTag =>
      [reqParamsName hp; before pl; reqImage ib; queryParser pl;
       lift (imageTag drc be)]
  | ImageDelete =>
      [reqParamsName hp; before pl; queryParser pl;
       lift (imageDelete hp ib)]
  | ImageSearch =>
      [before pl; queryParser pl; reqRegAuth pl; lift (imageSearch drc)]
  | ImageGet => [reqParamsName hp; before pl; lift imageGet]
  | ImageLoad => [reqParamsName hp; before pl; lift imageLoad]
  end.

(** The route of each endpoint that parses a reference. *)
Definition route_of (ep : endpoint) : route :=
  match ep with
  | Create => ImageCreate
  | Push => ImagePush
  | Tag => ImageTag
  | Search => ImageSearch
  end.

(** Each handler of this file, run on a request. *)
Definition handler_runs (hp : helpers) (drc : registry) (be : backend)
    (ib : image_backend) (req : request) : list (list event) :=
  [imageList hp ib req; imageCreate drc be req; imageInspect ib req;
   imageHistory ib req; imagePush drc be req; imageChanges req;
   imageTag drc be req; imageDelete hp ib req; imageSearch drc req;
   imageGet req; imageLoad req;
   fst (reqParamsName hp req); fst (reqImage ib req);
   fst (reqImagesAndTags ib req)].

(** The run of a handler ends by one call of [next] or by a throw, and
    nothing comes after it. *)
Definition is_end (e : event) : bool :=
  match e with
  | Next _ | Thrown _ => true
  | _ => false
  end.

Fixpoint ends_once (evs : list event) : bool :=
  match evs with
  | [] => false
  | [e] => is_end e
  | e :: rest => negb (is_end e) && ends_once rest
  end.

(** The image and the tag of each call of [pushImage], in order. *)
Definition pushed_pairs (evs : list event) : list (value * value) :=
  flat_map (fun e =>
              match e with
              | Backend "pushImage" opts =>
                  [(get opts "image", get (get opts "rat") "tag")]
              | _ => []
              end) evs.

(** What [pushImage] answers for the image [img] pushed under the tag
    entry [imgTag] of a repository parsed as [rat]. *)
Definition push_result (be : backend) (rat : list (string * value))
    (img imgTag : value) : list res_event * value :=
  pushImage be img (assign "tag" (get imgTag "tag") rat)
    (to_string (lookup "canonicalName" rat) ++ ":"
     ++ to_string (get imgTag "tag")).

(** The number of leading pairs of images and tags that [imagePush]
    gets to push: up to and including the first push that fails. *)
Fixpoint attempted (be : backend) (rat : list (string * value))
    (pairs : list (value * value)) : nat :=
  match pairs with
  | [] => 0
  | (img, imgTag) :: rest =>
      if truthy (snd (push_result be rat img imgTag)) then 1
      else S (attempted be rat rest)
  end.







End Handlers.

(* ================================================================= *)
(** ** lib/endpoints/images.js: the paths of the routes *)

Module Routes.
Import JS Handlers.

(** The regular expressions of [register], as far as their syntax goes:
    literal text, a class of characters repeated (greedily, or lazily as
    in [.*?]), a capturing group, an optional part and concatenation.
    Every path of [register] is anchored at both ends. *)
Inductive class : Type :=
| Any                  (* . *)
| Not (c : ascii)      (* [^c] *)
| OneOf (cs : string). (* [cs] *)

Inductive regex : Type :=
| Lit (s : string)
| Many (k : class) (min : nat) (greedy : bool)
| Group (r : regex)
| Opt (r : regex)
| Cat (r1 r2 : regex).

Fixpoint mem (c : ascii) (cs : string) : bool :=
  match cs with
  | EmptyString => false
  | String c' rest => Ascii.eqb c c' || mem c rest
  end.

(** The dot takes any character but a line terminator. *)
Definition in_class (k : class) (c : ascii) : bool :=
  match k with
  | Any => negb (Ascii.eqb c "010" || Ascii.eqb c "013")
  | Not c' => negb (Ascii.eqb c c')
  | OneOf cs => mem c cs
  end.

(** [s] without its prefix [l], if [l] is a prefix of [s]. *)
Fixpoint strip (l s : string) : option string :=
  match l, s with
  | EmptyString, _ => Some s
  | String a l', String b s' => if Ascii.eqb a b then strip l' s' else None
  | String _ _, EmptyString => None
  end.

(** What has been read of [s] when [rest] is left of it. *)
Definition consumed (s rest : string) : string :=
  substring 0 (String.length s - String.length rest) s.

(** The captures of the groups closed so far, in order; [None] is a
    group that took no part in the match. *)
Definition captures : Type := list (option string).

Fixpoint groups (r : regex) : nat :=
  match r with
  | Lit _ | Many _ _ _ => 0
  | Group r' => S (groups r')
  | Opt r' => groups r'
  | Cat r1 r2 => groups r1 + groups r2
  end.

(** A repeated class, matched by backtracking: the greedy one tries the
    longest run first, the lazy one the shortest; [n] counts the
    characters taken and [k] matches what follows. *)
Fixpoint many_greedy {R : Type} (cl : class) (min : nat)
    (k : string -> option R) (s : string) (n : nat) : option R :=
  let stop := if (min <=? n)%nat then k s else None in
  match s with
  | String c s' =>
      if in_class cl c then
        match many_greedy cl min k s' (S n) with
        | Some r => Some r
        | None => stop
        end
      else stop
  | EmptyString => stop
  end.

Fixpoint many_lazy {R : Type} (cl : class) (min : nat)
    (k : string -> option R) (s : string) (n : nat) : option R :=
  let more :=
    match s with
    | String c s' =>
        if in_class cl c then many_lazy cl min k s' (S n) else None
    | EmptyString => None
    end in
  if (min <=? n)%nat then
    match k s with
    | Some r => Some r
    | None => more
    end
  else more.

Fixpoint matching (r : regex) (s : string) (caps : captures)
    (k : string -> captures -> option captures) : option captures :=
  match r with
  | Lit l =>
      match strip l s with
      | Some s' => k s' caps
      | None => None
      end
  | Many cl min greedy =>
      if greedy then many_greedy cl min (fun s' => k s' caps) s 0
      else many_lazy cl min (fun s' => k s' caps) s 0
  | Group r' =>
      matching r' s caps
        (fun s' caps' => k s' (caps' ++ [Some (consumed s s')])%list)
  | Opt r' =>
      match matching r' s caps k with
      | Some result => Some result
      | None => k s (caps ++ repeat None (groups r'))%list
      end
  | Cat r1 r2 =>
      matching r1 s caps (fun s' caps' => matching r2 s' caps' k)
  end.

(** [/^r$/.exec(s)]: the captures, if the whole of [s] matches. *)
Definition exec (r : regex) (s : string) : option captures :=
  matching r s []
    (fun s' caps => match s' with
                    | EmptyString => Some caps
                    | String _ _ => None
                    end).

(** [(\/v[^\/]+)?] *)
Definition version : regex :=
  Opt (Group (Cat (Lit "/v") (Many (Not "/") 1 true))).

(** The text that ends the path of a route, after the name if the
    route has one. *)
Definition tail (r : route) : string :=
  match r with
  | ImageList => "/images/json"
  | ImageCreate => "/images/create"
  | ImageSearch => "/images/search"
  | ImageInspect => "/json"
  | ImageHistory => "/history"
  | ImagePush => "/push"
  | ImageTag => "/tag"
  | ImageDelete => EmptyString
  | ImageGet => "/get"
  | ImageLoad => "/load"
  end.

Definition has_name (r : route) : bool :=
  match r with
  | ImageList | ImageCreate | ImageSearch => false
  | _ => true
  end.

(** The [path] of each route. *)
Definition path (r : route) : regex :=
  match r with
  | ImageList => Cat version (Lit "/images/json")
  | ImageCreate => Cat version (Lit "/images/create")
  | ImageInspect =>
      Cat version (Cat (Lit "/images/")
                       (Cat (Group (Many Any 0 false)) (Lit "/json")))
  | ImageHistory =>
      Cat version (Cat (Lit "/images/")
                       (Cat (Group (Many Any 0 false)) (Lit "/history")))
  | ImagePush =>
      Cat version (Cat (Lit "/images/")
                       (Cat (Group (Many Any 0 false)) (Lit "/push")))
  | ImageTag =>
      Cat version (Cat (Lit "/images/")
                       (Cat (Group (Many Any 0 false)) (Lit "/tag")))
  | ImageDelete =>
      Cat version (Cat (Lit "/images/") (Group (Many Any 0 false)))
  | ImageSearch => Cat version (Lit "/images/search")
  | ImageGet =>
      Cat version (Cat (Lit "/images/")
                       (Cat (Group (Many Any 0 false)) (Lit "/get")))
  | ImageLoad =>
      Cat version (Cat (Lit "/images/")
                       (Cat (Group (Many Any 0 false)) (Lit "/load")))
  end.

(** The method of each route. *)
Definition verb (r : route) : string :=
  match r with
  | ImageList | ImageInspect | ImageHistory | ImageSearch | ImageGet => "GET"
  | ImageCreate | ImagePush | ImageTag | ImageLoad => "POST"
  | ImageDelete => "DELETE"
  end.

(** Every character of a string is in a class. *)
Fixpoint all_in (cl : class) (s : string) : bool :=
  match s with
  | EmptyString => true
  | String c s' => in_class cl c && all_in cl s'
  end.

(** The version part of a path: nothing, or [/v] and at least one
    character, none of them a slash. *)
Definition version_text (ver : option string) : string :=
  match ver with
  | Some v => v
  | None => EmptyString
  end.

Definition is_version (ver : option string) : bool :=
  match ver with
  | None => true
  | Some text =>
      match strip "/v" text with
      | Some v => negb (v =? EmptyString) && all_in (Not "/") v
      | None => false
      end
  end.

(** A string read from its end. *)
Fixpoint reverse (s : string) : string :=
  match s with
  | EmptyString => EmptyString
  | String c s' => reverse s' ++ String c EmptyString
  end.

End Routes.

(* ================================================================= *)
(** ** lib/common.js: identifiers and the checks before a request *)

Module Service.
Import JS Http Routes.

Definition SERVER_VERSION : string := "1.16".

(** [s.replace(/-/g, '')] *)
Fixpoint remove_dashes (s : string) : string :=
  match s with
  | EmptyString => EmptyString
  | String c s' =>
      if Ascii.eqb c "-" then remove_dashes s' else String c (remove_dashes s')
  end.

(** [generateDockerId], given the two identifiers that [UUID.v4()]
    returns. *)
Definition generateDockerId (uuid1 uuid2 : string) : string :=
  remove_dashes (uuid1 ++ uuid2).

(** The text of a UUID: five groups of hexadecimal digits, of 8, 4, 4, 4
    and 12 digits, with dashes between them. *)
Definition uuid_text (g1 g2 g3 g4 g5 : string) : string :=
  g1 ++ "-" ++ g2 ++ "-" ++ g3 ++ "-" ++ g4 ++ "-" ++ g5.

Definition hex_digits (n : nat) (g : string) : bool :=
  (String.length g =? n)%nat && all_in (OneOf "0123456789abcdef") g.

(** The errors of restify that the checks make. *)
Inductive restify_error : Type :=
| InvalidVersionError (message : string)
| ServiceUnavailableError (message : string).

(** How a check ends: [next()], [next(err)] or a throw. *)
Inductive checked : Type :=
| Pass
| Stop (e : restify_error)
| Crash (exn : string).

(** [checkServices], given [req.app.moray]. *)
Definition checkServices (moray : value) : checked :=
  if negb (truthy moray)
  then Stop (ServiceUnavailableError "Moray client not initialized")
  else Pass.

(** What [checkApiVersion] takes from the arithmetic of the platform:
    whether [Number(s) >= 1.15], and the text of [Number(s)]. *)
Record numerics : Type := {
  at_least_1_15 : string -> bool;
  number_text : string -> string
}.

(** [/^v[0-9\.]+$/] *)
Definition version_pattern : regex :=
  Cat (Lit "v") (Many (OneOf "0123456789.") 1 true).

Definition versionless : list string :=
  ["CreateImageTag"; "ListImageTags"; "ping"].

(** [s.slice(1)] *)
Definition slice1 (s : string) : string :=
  match s with
  | EmptyString => EmptyString
  | String _ rest => rest
  end.

Definition mismatch (client : string) : string :=
  "client and server don't have same version (client : " ++ client
  ++ ", server: " ++ SERVER_VERSION ++ ")".

(** [checkApiVersion], given [req.route.name] and
    [req.params.apiversion]. *)
Definition checkApiVersion (nm : numerics) (route_name : string)
    (apiversion : value) : checked :=
  if existsb (String.eqb route_name) versionless then Pass
  else if negb (truthy apiversion) then
    Stop (InvalidVersionError "client request is missing version")
  else
    match apiversion with
    | str s =>
        match exec version_pattern s with
        | Some _ =>
            if at_least_1_15 nm (slice1 s) then Pass
            else Stop (InvalidVersionError
                         (mismatch (number_text nm (slice1 s))))
        | None => Stop (InvalidVersionError (mismatch s))
        end
    | _ => Crash "TypeError"
    end.

(** The [body] option that [filteredAuditLog] gives the audit logger,
    for a status code that is an integer. *)
Definition audit_body (method : value) (statusCode : Z) : bool :=
  negb (is_string method "GET" && (statusCode / 100 =? 2)%Z).

End Service.

(* ================================================================= *)
(** ** The regression test for DOCKER-880: reading [docker volume ls] *)

Module VolumesTest.
Import JS.

(** The white space of [trim] and of [\s] among the code units at
    hand. *)
Definition is_space (c : ascii) : bool :=
  let n := N_of_ascii c in
  ((9 <=? n) && (n <=? 13) || (n =? 32) || (n =? 160))%N.

Fixpoint trim_start (s : string) : string :=
  match s with
  | EmptyString => EmptyString
  | String c rest => if is_space c then trim_start rest else s
  end.

Fixpoint trim_end (s : string) : string :=
  match s with
  | EmptyString => EmptyString
  | String c rest =>
      match trim_end rest with
      | EmptyString => if is_space c then EmptyString
                       else String c EmptyString
      | kept => String c kept
      end
  end.

(** [s.trim()] *)
Definition trim (s : string) : string := trim_end (trim_start s).

(** [s.split(/\s+/)]: [field] is the field being read, and [skipping]
    tells that the last character read was white space. *)
Fixpoint split_spaces (skipping : bool) (field : string) (s : string)
  : list string :=
  match s with
  | EmptyString => [field]
  | String c rest =>
      if is_space c then
        if skipping then split_spaces true EmptyString rest
        else field :: split_spaces true EmptyString rest
      else split_spaces false (field ++ String c EmptyString) rest
  end.

Definition split (s : string) : list string :=
  split_spaces false EmptyString s.

(** [makeKeepVolumeWithNameFn(volumeName)], applied to a line of the
    output of [docker volume ls]. *)
Definition keepVolumeWithName (volumeName : string)
    (dockerVolumeLsOutputLine : string) : bool :=
  let driverAndName := split (trim dockerVolumeLsOutputLine) in
  match nth_error driverAndName 1 with
  | Some name => name =? volumeName
  | None => false
  end.

(** Text without white space, and text of white space only. *)
Fixpoint no_space (s : string) : bool :=
  match s with
  | EmptyString => true
  | String c rest => negb (is_space c) && no_space rest
  end.

Fixpoint only_space (s : string) : bool :=
  match s with
  | EmptyString => true
  | String c rest => is_space c && only_space rest
  end.

End VolumesTest.

(* ================================================================= *)
(** ** More sample inputs *)

Module MoreSamples.
Import JS Http Common Images Resolver Samples Handlers.

(** A job that has succeeded without any step result. *)
Definition empty_job : value :=
  object [("uuid", str "a1fb11c0"); ("execution", str "succeeded");
          ("chain_results", array [])].

Definition pull_everything : request :=
  {| query := [("fromImage", str "busybox")]; params := [];
     images := []; imageTags := []; image := undefined |}.

Definition pull_by_digest : request :=
  {| query := [("fromImage", str "busybox"); ("tag", str "sha256:4bb5a2")];
     params := []; images := []; imageTags := []; image := undefined |}.

(** A pull without [fromImage], and a registry client whose parse
    functions take strings only. *)
Definition pull_nothing : request :=
  {| query := []; params := []; images := []; imageTags := [];
     image := undefined |}.

Definition no_string : value :=
  error_of "TypeError" "Cannot read property 'indexOf' of undefined".

Definition strict : registry :=
  {| parseRepoAndRef := fun v => match v with
                                 | str _ => Parsed busybox
                                 | _ => ParseError no_string
                                 end;
     parseRepoAndTag := fun v => match v with
                                 | str _ => Parsed busybox
                                 | _ => ParseError no_string
                                 end;
     parseRepo := fun v => match v with
                           | str _ => Parsed busybox
                           | _ => ParseError no_string
                           end;
     search := fun _ _ => (null, object [("results", array [])]) |}.

Definition plain : helpers :=
  {| boolFromQueryParam := fun v => boolean (is_string v "1");
     unescape := fun v => v |}.

(** A backend that knows one image, tagged twice, and a backend that
    fails on every call. *)
Definition img1 : value := object [("docker_id", str "0123456789abcdef0123")].
Definition tag_latest : value :=
  object [("tag", str "latest"); ("config_digest", str "sha256:4bb5a2")].
Definition tag_v1 : value :=
  object [("tag", str "1.0"); ("config_digest", str "sha256:4bb5a2")].

Definition one_image : image_backend :=
  {| listImages := fun _ => (null, array [img1]);
     inspectImage := fun _ => (null, img1);
     getImageHistory := fun _ => (null, array []);
     deleteImage := fun _ => (null, array []);
     imgFromName := fun _ => (null, undefined);
     tagsFromRepoName := fun _ => (null, [tag_latest; tag_v1]);
     imgFromConfigDigest := fun _ => (null, img1) |}.



(** A backend whose pushes fail for the tag [1.0]. *)
Definition fussy : backend :=
  {| pullImage := fun _ => [];
     pushImage := fun _ rat _ =>
       if is_string (lookup "tag" rat) "1.0"
       then ([Write "denied"], error "denied")
       else ([Write "pushed"], null);
     tagImage := fun _ _ => null |}.

Definition named : request :=
  {| query := []; params := [("1", str "busybox"); ("name", str "busybox")];
     images := []; imageTags := []; image := undefined |}.

Definition push_two : request :=
  {| query := []; params := [("name", str "busybox")];
     images := [img1; img1]; imageTags := [tag_latest; tag_v1];
     image := undefined |}.

Definition push_three : request :=
  {| query := []; params := [("name", str "busybox")];
     images := [img1; img1; img1];
     imageTags := [tag_latest; tag_v1; tag_latest];
     image := undefined |}.

End MoreSamples.

(* ================================================================= *)
(** ** The poll loop *)

Import JS Http Common Images Resolver Samples.

Section Polling.
Variable client : wfClient.
Variable job_uuid : string.

Lemma poll_S fuel attempts errors :
  poll (S fuel) client job_uuid attempts errors =
  let '(err, job) := getJob client job_uuid attempts in
  if truthy err then
    if (5 <=? S errors)%nat then ([GetJob job_uuid], Some (err, undefined))
    else
      let '(tr, r) := poll fuel client job_uuid (S attempts) (S errors) in
      (GetJob job_uuid :: SetTimeout timeout :: tr, r)
  else if truthy job && is_string (get job "execution") "succeeded" then
    ([GetJob job_uuid], Some (null, job))
  else if truthy job && is_string (get job "execution") "failed" then
    ([GetJob job_uuid], Some (null, job))
  else if (limit <? S attempts)%nat then
    ([GetJob job_uuid],
     Some (new_Error (str "polling for job timed out"), job))
  else
    let '(tr, r) := poll fuel client job_uuid (S attempts) errors in
    (GetJob job_uuid :: SetTimeout timeout :: tr, r).
Proof. reflexivity. Qed.

Lemma terminal_false job :
  terminal job = false ->
  truthy job && is_string (get job "execution") "succeeded" = false /\
  truthy job && is_string (get job "execution") "failed" = false.
Proof.
  unfold terminal.
  destruct (truthy job), (is_string (get job "execution") "succeeded"),
    (is_string (get job "execution") "failed"); simpl; intuition congruence.
Qed.

Lemma terminal_true job :
  terminal job = true ->
  truthy job && is_string (get job "execution") "succeeded" = true \/
  (truthy job && is_string (get job "execution") "succeeded" = false /\
   truthy job && is_string (get job "execution") "failed" = true).
Proof.
  unfold terminal.
  destruct (truthy job), (is_string (get job "execution") "succeeded"),
    (is_string (get job "execution") "failed"); simpl; intuition congruence.
Qed.

Lemma polling_snoc k :
  polling job_uuid (S k) =
  (polling job_uuid k ++ [GetJob job_uuid; SetTimeout timeout])%list.
Proof.
  induction k as [|k IH]; [reflexivity|].
  simpl in *. rewrite <- IH. reflexivity.
Qed.

(** The last step of a run: what one poll does when it ends the run. *)
Lemma poll_fifth_error fuel attempts errors err job :
  getJob client job_uuid attempts = (err, job) ->
  truthy err = true -> 4 <= errors ->
  poll (S fuel) client job_uuid attempts errors =
  ([GetJob job_uuid], Some (err, undefined)).
Proof.
  intros E T H. rewrite poll_S, E, T.
  destruct (Nat.leb_spec 5 (S errors)) as [_|L]; [reflexivity|lia].
Qed.

Lemma poll_terminal fuel attempts errors err job :
  getJob client job_uuid attempts = (err, job) ->
  truthy err = false -> terminal job = true ->
  poll (S fuel) client job_uuid attempts errors =
  ([GetJob job_uuid], Some (null, job)).
Proof.
  intros E T H. rewrite poll_S, E, T.
  destruct (terminal_true _ H) as [-> | [-> ->]]; reflexivity.
Qed.

Lemma poll_timed_out fuel attempts errors err job :
  getJob client job_uuid attempts = (err, job) ->
  truthy err = false -> terminal job = false -> limit < S attempts ->
  poll (S fuel) client job_uuid attempts errors =
  ([GetJob job_uuid],
   Some (new_Error (str "polling for job timed out"), job)).
Proof.
  intros E T H L. rewrite poll_S, E, T.
  destruct (terminal_false _ H) as [-> ->].
  destruct (Nat.ltb_spec limit (S attempts)) as [_|L']; [reflexivity|lia].
Qed.

(** Polls that do not end the run are skipped over. *)
Lemma poll_ahead k : forall fuel,
  (forall i, i < k -> keeps_polling client job_uuid i = true) ->
  errors_before client job_uuid k <= 4 ->
  poll (k + fuel) client job_uuid 0 0 =
  ((polling job_uuid k ++
    fst (poll fuel client job_uuid k (errors_before client job_uuid k)))%list,
   snd (poll fuel client job_uuid k (errors_before client job_uuid k))).
Proof.
  induction k as [|k IH]; intros fuel Hk He.
  - simpl. destruct (poll fuel client job_uuid 0 0); reflexivity.
  - replace (S k + fuel) with (k + S fuel) by lia.
    simpl errors_before in *.
    rewrite IH; [|intros i Hi; apply Hk; lia|lia].
    specialize (Hk k (Nat.lt_succ_diag_r k)). unfold keeps_polling in Hk.
    rewrite poll_S, polling_snoc.
    destruct (getJob client job_uuid k) as [err job]; cbn [fst] in *.
    destruct (truthy err) eqn:T.
    + destruct (Nat.leb_spec 5 (S (errors_before client job_uuid k)));
        [lia|].
      rewrite Nat.add_1_r.
      destruct (poll fuel client job_uuid (S k) _) as [tr r]. cbn [fst snd].
      rewrite <- app_assoc. reflexivity.
    + cbn [orb] in Hk. apply andb_prop in Hk as [Hn Hl].
      apply negb_true_iff in Hn. destruct (terminal_false _ Hn) as [-> ->].
      apply Nat.leb_le in Hl.
      destruct (Nat.ltb_spec limit (S k)); [lia|].
      rewrite Nat.add_0_r.
      destruct (poll fuel client job_uuid (S k) _) as [tr r]. cbn [fst snd].
      rewrite <- app_assoc. reflexivity.
Qed.

Lemma polls_within_budget k :
  (forall i, i < k -> keeps_polling client job_uuid i = true) ->
  k <= limit + errors_before client job_uuid k.
Proof.
  induction k as [|k IH]; intros Hk; [lia|].
  simpl errors_before.
  assert (IH' := IH (fun i Hi => Hk i (Nat.lt_lt_succ_r _ _ Hi))).
  specialize (Hk k (Nat.lt_succ_diag_r k)). unfold keeps_polling in Hk.
  destruct (getJob client job_uuid k) as [err job]; cbn [fst].
  destruct (truthy err); [lia|].
  cbn [orb] in Hk. apply andb_prop in Hk as [_ Hl]. apply Nat.leb_le in Hl. lia.
Qed.

Lemma pollJob_ahead k :
  (forall i, i < k -> keeps_polling client job_uuid i = true) ->
  errors_before client job_uuid k <= 4 ->
  exists fuel,
    pollJob client job_uuid =
    ((polling job_uuid k ++
      fst (poll (S fuel) client job_uuid k
             (errors_before client job_uuid k)))%list,
     snd (poll (S fuel) client job_uuid k
            (errors_before client job_uuid k))).
Proof.
  intros Hk He. pose proof (polls_within_budget k Hk) as Hb.
  exists (limit + 4 - k). unfold pollJob.
  replace (limit + 5) with (k + S (limit + 4 - k)) by lia.
  apply poll_ahead; assumption.
Qed.

(** [pollJob] always calls back: [limit + 5] polls are enough. *)
Lemma poll_returns : forall fuel attempts errors,
  errors <= 4 -> (limit - attempts) + (4 - errors) < fuel ->
  exists tr r, poll fuel client job_uuid attempts errors = (tr, Some r).
Proof.
  induction fuel as [|fuel IH]; intros attempts errors He Hf; [lia|].
  rewrite poll_S. destruct (getJob client job_uuid attempts) as [err job].
  destruct (truthy err).
  - destruct (Nat.leb_spec 5 (S errors)); [eauto|].
    destruct (IH (S attempts) (S errors)) as (tr & r & ->); [lia|lia|eauto].
  - destruct (truthy job && is_string (get job "execution") "succeeded");
      [eauto|].
    destruct (truthy job && is_string (get job "execution") "failed");
      [eauto|].
    destruct (Nat.ltb_spec limit (S attempts)); [eauto|].
    destruct (IH (S attempts) errors) as (tr & r & ->); [lia|lia|eauto].
Qed.

Lemma pollJob_returns :
  exists tr r, pollJob client job_uuid = (tr, Some r).
Proof. apply poll_returns; lia. Qed.

(** So does [waitForJob]: it calls back, or its callback throws. *)
Lemma waitForJob_returns :
  exists tr o, waitForJob client job_uuid = (tr, Some o).
Proof.
  destruct pollJob_returns as (tr & [err job] & P).
  exists tr, (onPolled err job). unfold waitForJob. rewrite P. reflexivity.
Qed.

End Polling.

Lemma polls_polling job_uuid k :
  polls (polling job_uuid k ++ [GetJob job_uuid]) = S k.
Proof.
  induction k as [|k IH]; [reflexivity|].
  unfold polls in *. simpl. rewrite IH. reflexivity.
Qed.

Lemma waits_polling job_uuid k :
  waits (polling job_uuid k ++ [GetJob job_uuid]) = repeat timeout k.
Proof.
  induction k as [|k IH]; [reflexivity|].
  unfold waits in *. simpl. rewrite IH. reflexivity.
Qed.

Lemma stringify_defined v :
  v <> undefined -> exists s, stringify v = Some s.
Proof. destruct v; simpl; eauto. congruence. Qed.

Lemma truthy_defined v : truthy v = true -> v <> undefined.
Proof. intros H ->. discriminate. Qed.

(** How a run ends at the answer [k] of the client, when the answers
    before it keep the loop polling. *)
Lemma waitForJob_ends client job_uuid k err job :
  (forall i, i < k -> keeps_polling client job_uuid i = true) ->
  errors_before client job_uuid k <= 4 ->
  getJob client job_uuid k = (err, job) ->
  (truthy err = true /\ errors_before client job_uuid k = 4) \/
  (truthy err = false /\ terminal job = true) ->
  waitForJob client job_uuid =
  ((polling job_uuid k ++ [GetJob job_uuid])%list,
   Some (if truthy err then Callback err else onPolled null job)).
Proof.
  intros Hk He E H.
  destruct (pollJob_ahead client job_uuid k Hk He) as [fuel P].
  unfold waitForJob. rewrite P.
  destruct H as [[T H4] | [T Ht]]; rewrite T.
  - rewrite (poll_fifth_error _ _ _ _ _ err job E T) by lia.
    cbn [fst snd]. unfold onPolled. rewrite T. reflexivity.
  - rewrite (poll_terminal _ _ _ _ _ err job E T Ht). reflexivity.
Qed.

(** C1, amended.  [waitForJob] puts up with four fetch errors in all,
    in a row or not, since the counter [errors] is never set back: as
    long as the answers before the answer [k] keep the loop polling and
    hold at most four fetch errors, a fifth fetch error at [k] makes
    [waitForJob] call back at once with that very error, after [k + 1]
    polls, and a terminal job fetched at [k] yields the result of that
    job. *)
Theorem waitForJob_error_budget client job_uuid k err job :
  (forall i, i < k -> keeps_polling client job_uuid i = true) ->
  errors_before client job_uuid k <= 4 ->
  getJob client job_uuid k = (err, job) ->
  (truthy err = true /\ errors_before client job_uuid k = 4) \/
  (truthy err = false /\ terminal job = true) ->
  snd (waitForJob client job_uuid) =
    Some (if truthy err then Callback err else onPolled null job)
  /\ polls (fst (waitForJob client job_uuid)) = S k.
Proof.
  intros Hk He E H.
  rewrite (waitForJob_ends client job_uuid k err job Hk He E H).
  split; [reflexivity|apply polls_polling].
Qed.

Lemma flaky_keeps_polling n job u i :
  i < n -> keeps_polling (flaky n job) u i = true.
Proof.
  intros H. unfold keeps_polling, flaky. cbn [getJob].
  destruct (Nat.ltb_spec i n); [reflexivity|lia].
Qed.

Lemma waitForJob_error_budget_witness :
  snd (waitForJob (flaky 4 done_job) "a1fb11c0") = Some (Callback undefined)
  /\ polls (fst (waitForJob (flaky 4 done_job) "a1fb11c0")) = 5.
Proof.
  apply (waitForJob_error_budget (flaky 4 done_job) "a1fb11c0" 4
           null done_job).
  - intros i Hi. apply flaky_keeps_polling. exact Hi.
  - vm_compute. lia.
  - reflexivity.
  - right. split; reflexivity.
Defined.

(** C1 as stated fails: after five fetch errors in a row the loop does
    not fetch a sixth time; it calls back with the fifth error although
    the job has succeeded. *)
Lemma waitForJob_five_errors :
  snd (waitForJob (flaky 5 done_job) "a1fb11c0") = Some (Callback refused)
  /\ onPolled null done_job = Callback undefined
  /\ snd (waitForJob (flaky 5 done_job) "a1fb11c0")
     <> Some (onPolled null done_job).
Proof. repeat split. vm_compute. discriminate. Qed.

Lemma errors_before_none client job_uuid k :
  (forall i, truthy (fst (getJob client job_uuid i)) = false) ->
  errors_before client job_uuid k = 0.
Proof.
  intros H. induction k as [|k IH]; [reflexivity|].
  simpl. rewrite IH, H. reflexivity.
Qed.

(** C6.  When every fetch succeeds and no fetched job is terminal,
    [waitForJob] waits 1000 ms between two polls, 720 times, and the poll
    that takes [attempts] beyond the limit of 720, the 721st, ends the
    run: [waitForJob] calls back with the error
    [polling for job timed out]. *)
Theorem waitForJob_times_out client job_uuid :
  (forall i, truthy (fst (getJob client job_uuid i)) = false
             /\ terminal (snd (getJob client job_uuid i)) = false) ->
  snd (waitForJob client job_uuid) =
    Some (Callback (error "polling for job timed out"))
  /\ waits (fst (waitForJob client job_uuid)) = repeat 1000%Z 720
  /\ polls (fst (waitForJob client job_uuid)) = 721.
Proof.
  intros H.
  assert (He : errors_before client job_uuid limit = 0)
    by (apply errors_before_none; intros i; apply H).
  destruct (pollJob_ahead client job_uuid limit) as [fuel P].
  - intros i Hi. unfold keeps_polling. destruct (H i) as [T N].
    destruct (getJob client job_uuid i) as [err job]. cbn [fst snd] in *.
    rewrite T, N. apply Nat.leb_le. lia.
  - lia.
  - destruct (H limit) as [T N].
    destruct (getJob client job_uuid limit) as [err job] eqn:E.
    cbn [fst snd] in *.
    rewrite (poll_timed_out _ _ _ _ _ err job E T N) in P by lia.
    unfold waitForJob. rewrite P. cbn [fst snd].
    split; [reflexivity|]. split.
    + apply waits_polling.
    + apply polls_polling.
Qed.

Lemma waitForJob_times_out_witness :
  snd (waitForJob (steady running_job) "a1fb11c0") =
    Some (Callback (error "polling for job timed out"))
  /\ waits (fst (waitForJob (steady running_job) "a1fb11c0"))
     = repeat 1000%Z 720
  /\ polls (fst (waitForJob (steady running_job) "a1fb11c0")) = 721.
Proof.
  apply (waitForJob_times_out (steady running_job) "a1fb11c0").
  intros i. split; reflexivity.
Defined.


(** What the callback of [waitForJob] makes of a fetched job whose last
    step result is [result]. *)
Lemma onPolled_last props results result :
  lookup "chain_results" props = array results ->
  last results undefined = result ->
  nullish result = false ->
  onPolled null (object props) =
  if truthy (get result "error") then
    Callback (new_Error
                (or (get (get result "error") "message")
                    (match stringify (get result "error") with
                     | Some s => str s
                     | None => undefined
                     end)))
  else Callback undefined.
Proof.
  intros C L N. unfold onPolled. cbn [truthy nullish get].
  rewrite C, L, N. reflexivity.
Qed.



(** C10.  For a job fetched in a terminal state, [succeeded] or
    [failed] alike, with a step result at the end of [chain_results], the
    outcome of [waitForJob] depends on that step result only: it calls
    back without error exactly when the step result has no error
    ([result.error] is missing or falsy), and otherwise with an [Error]
    built from that error. *)
Theorem waitForJob_last_result client job_uuid k err props results rprops :
  (forall i, i < k -> keeps_polling client job_uuid i = true) ->
  errors_before client job_uuid k <= 4 ->
  getJob client job_uuid k = (err, object props) ->
  truthy err = false ->
  terminal (object props) = true ->
  lookup "chain_results" props = array results ->
  results <> [] ->
  last results undefined = object rprops ->
  (snd (waitForJob client job_uuid) = Some (Callback undefined)
   <-> truthy (lookup "error" rprops) = false)
  /\ (truthy (lookup "error" rprops) = true ->
      exists s, stringify (lookup "error" rprops) = Some s
        /\ snd (waitForJob client job_uuid)
           = Some (Callback
                     (new_Error (or (get (lookup "error" rprops) "message")
                                    (str s))))).
Proof.
  intros Hk He E T Ht C _ L.
  rewrite (waitForJob_ends client job_uuid k err (object props) Hk He E)
    by (right; split; assumption).
  cbn [snd]. rewrite T.
  rewrite (onPolled_last props results (object rprops) C L eq_refl).
  cbn [get]. destruct (truthy (lookup "error" rprops)) eqn:Te.
  - destruct (stringify_defined _ (truthy_defined _ Te)) as [s S].
    rewrite S. split.
    + split; intros H; [|discriminate].
      unfold new_Error in H. destruct (or _ _); discriminate.
    + intros _. exists s. split; reflexivity.
  - split; [tauto|discriminate].
Qed.

Lemma waitForJob_last_result_witness :
  (snd (waitForJob (steady odd_job) "a1fb11c0") = Some (Callback undefined)
   <-> truthy no_capacity = false)
  /\ (truthy no_capacity = true ->
      exists s, stringify no_capacity = Some s
        /\ snd (waitForJob (steady odd_job) "a1fb11c0")
           = Some (Callback
                     (new_Error (or (get no_capacity "message") (str s))))).
Proof.
  apply (waitForJob_last_result (steady odd_job) "a1fb11c0" 0 null
           [("uuid", str "a1fb11c0"); ("execution", str "succeeded");
            ("chain_results",
             array [step_ok; object [("error", no_capacity)]])]
           [step_ok; object [("error", no_capacity)]]
           [("error", no_capacity)]).
  - intros i Hi. lia.
  - vm_compute. lia.
  - reflexivity.
  - reflexivity.
  - reflexivity.
  - reflexivity.
  - discriminate.
  - reflexivity.
Defined.

(* ================================================================= *)
(** ** Raw multiplexed frames *)

Lemma blit_cons bs : forall offset b buf,
  blit (S offset) bs (b :: buf) = b :: blit offset bs buf.
Proof.
  induction bs as [|x bs IH]; intros offset b buf; [reflexivity|].
  cbn [blit set_byte]. apply IH.
Qed.

Lemma blit_front bs : forall buf,
  List.length bs <= List.length buf ->
  blit 0 bs buf = (bs ++ skipn (List.length bs) buf)%list.
Proof.
  induction bs as [|x bs IH]; intros buf H; [reflexivity|].
  destruct buf as [|b buf]; cbn [List.length] in H; [lia|].
  cbn [blit set_byte]. rewrite blit_cons, IH by lia. reflexivity.
Qed.

Lemma utf8_fit_length cps : forall room,
  List.length (utf8_fit cps room) <= room.
Proof.
  induction cps as [|c cps IH]; intros room; cbn [utf8_fit List.length];
    [lia|].
  destruct (Nat.leb_spec (List.length (utf8_char c)) room);
    cbn [List.length]; [|lia].
  rewrite length_app. specialize (IH (room - List.length (utf8_char c))). lia.
Qed.

Lemma code_points_ascii us : ascii_only us -> code_points us = us.
Proof.
  induction 1 as [|u us Hu _ IH]; [reflexivity|].
  cbn [code_points]. rewrite IH.
  unfold is_lead, is_trail.
  destruct (N.leb_spec 0xD800 u); [lia|].
  destruct (N.leb_spec 0xDC00 u); [lia|]. reflexivity.
Qed.

Lemma utf8_fit_ascii us : forall room,
  ascii_only us -> List.length us <= room -> utf8_fit us room = us.
Proof.
  induction us as [|u us IH]; intros room H L; [reflexivity|].
  inversion H as [|? ? Hu Hus]; subst. cbn [List.length] in L.
  cbn [utf8_fit]. unfold utf8_char.
  destruct (N.ltb_spec u 0x80); [|lia]. cbn [List.length app].
  destruct (Nat.leb_spec 1 room); [|lia].
  rewrite IH by (assumption || lia). reflexivity.
Qed.

Lemma utf8_ascii us : ascii_only us -> utf8 us = us.
Proof.
  intros H. unfold utf8. rewrite (code_points_ascii us H).
  induction H as [|u us Hu _ IH]; [reflexivity|].
  cbn [flat_map]. rewrite IH. unfold utf8_char.
  destruct (N.ltb_spec u 0x80); [reflexivity|lia].
Qed.

Lemma decode_ascii us :
  ascii_only us -> flat_map utf16_char (decode_from idle us) = us.
Proof.
  induction 1 as [|u us Hu _ IH]; [reflexivity|].
  cbn [decode_from decode_step idle needed]. unfold decode_first.
  destruct (N.leb_spec u 0x7F); [|lia].
  cbn [app flat_map]. fold idle. rewrite IH. unfold utf16_char.
  destruct (N.ltb_spec u 0x10000); [reflexivity|lia].
Qed.

Lemma chunk_toString_ascii data us :
  data = Text us \/ data = Bytes us -> ascii_only us ->
  chunk_toString data = us /\ chunk_length data = List.length us
  /\ payload data = us.
Proof.
  intros [-> | ->] H; cbn [chunk_toString chunk_length payload];
    repeat split; auto using decode_ascii, utf8_ascii.
Qed.

Lemma readUInt32BE_be32 v :
  (v <= 0xFFFFFFFF)%N ->
  readUInt32BE (N.land (N.shiftr v 24) 0xFF) (N.land (N.shiftr v 16) 0xFF)
               (N.land (N.shiftr v 8) 0xFF) (N.land v 0xFF) = v.
Proof.
  intros H. unfold readUInt32BE.
  change 0xFF%N with (N.ones 8). rewrite !N.land_ones, !N.shiftr_div_pow2.
  change (2 ^ 8)%N with 256%N. change (2 ^ 16)%N with 65536%N.
  change (2 ^ 24)%N with 16777216%N.
  assert (H3 : (v / 16777216 < 256)%N)
    by (apply N.Div0.div_lt_upper_bound; lia).
  rewrite (N.mod_small (v / 16777216) 256) by exact H3.
  pose proof (N.Div0.div_mod v 256) as E0.
  pose proof (N.Div0.div_mod (v / 256) 256) as E1.
  pose proof (N.Div0.div_mod (v / 256 / 256) 256) as E2.
  rewrite !N.Div0.div_div in E1, E2.
  change (256 * 256)%N with 65536%N in *.
  rewrite N.Div0.div_div in E2.
  change (65536 * 256)%N with 16777216%N in *.
  lia.
Qed.

Lemma STREAM_TYPES_code type :
  stream_type_of_code (STREAM_TYPES type) = Some type.
Proof. destruct type; reflexivity. Qed.

(** The frame [writeToDockerRawStream] writes: the header, and as many
    bytes as [data.length] says, of which the first are those that
    [message.write] stored and the others are what the memory held. *)
Lemma writeToDockerRawStream_frame heap type stream data :
  (N.of_nat (chunk_length data) <= 0xFFFFFFFF)%N ->
  let n := chunk_length data in
  let written := utf8_fit (code_points (chunk_toString data)) n in
  writeToDockerRawStream heap type stream data =
  Normal (stream ++
          [STREAM_TYPES type :: 0 :: 0 :: 0 :: be32 (N.of_nat n) ++
           written ++ skipn (List.length written) (map heap (seq 8 n))])%N%list.
Proof.
  intros H n written. unfold writeToDockerRawStream. fold n.
  unfold new_Buffer.
  change (seq 0 (8 + n)) with (0 :: 1 :: 2 :: 3 :: 4 :: 5 :: 6 :: 7 :: seq 8 n).
  cbn [map]. unfold writeUInt8.
  replace (0xFF <? STREAM_TYPES type)%N with false
    by (destruct type; reflexivity).
  cbn [List.length Nat.ltb Nat.leb Nat.add orb bind set_byte].
  unfold writeUInt32BE.
  destruct (N.ltb_spec 0xFFFFFFFF (N.of_nat n)); [lia|].
  cbn [List.length Nat.ltb Nat.leb Nat.add orb bind set_byte blit].
  unfold buffer_write. cbn [List.length Nat.sub].
  rewrite length_map, length_seq, Nat.sub_0_r. fold written.
  rewrite !blit_cons.
  rewrite blit_front
    by (rewrite length_map, length_seq; apply utf8_fit_length).
  reflexivity.
Qed.

(** Payloads of ASCII text make the round trip. *)
Lemma raw_frame_ascii heap type stream data us :
  data = Text us \/ data = Bytes us ->
  ascii_only us ->
  (N.of_nat (List.length us) <= 0xFFFFFFFF)%N ->
  writeToDockerRawStream heap type stream data =
    Normal (stream ++
            [STREAM_TYPES type :: 0 :: 0 :: 0 ::
             be32 (N.of_nat (List.length us)) ++ us])%N%list
  /\ decodeFrame (STREAM_TYPES type :: 0 :: 0 :: 0 ::
                  be32 (N.of_nat (List.length us)) ++ us)%N%list
     = Some (type, payload data).
Proof.
  intros D A L.
  destruct (chunk_toString_ascii data us D A) as (S & Len & P).
  split.
  - rewrite writeToDockerRawStream_frame by (rewrite Len; exact L).
    cbn zeta. rewrite S, Len, (code_points_ascii us A).
    rewrite (utf8_fit_ascii us _ A (le_n _)).
    rewrite skipn_all2 by (rewrite length_map, length_seq; lia).
    rewrite app_nil_r. reflexivity.
  - rewrite P. unfold be32. cbn [app decodeFrame].
    rewrite STREAM_TYPES_code, readUInt32BE_be32 by exact L.
    rewrite N.eqb_refl. reflexivity.
Qed.

Example raw_frame_hi heap :
  writeToDockerRawStream heap stderr [] (Text [0x68; 0x69]%N)
  = Normal [[2; 0; 0; 0; 0; 0; 0; 2; 0x68; 0x69]%N]
  /\ decodeFrame [2; 0; 0; 0; 0; 0; 0; 2; 0x68; 0x69]%N
     = Some (stderr, [0x68; 0x69]%N).
Proof. split; reflexivity. Qed.

(** C3 fails on the code.  For the string of the single code unit
    U+00E9 the frame declares one byte of payload, [data.length], while
    the payload, the UTF-8 text of the string, has two; [message.write]
    finds no room for them and stores nothing, so that the frame ends in
    whatever byte the fresh buffer held and the decoder cannot give the
    payload back.  A [Buffer] holding the one byte 0xFF fares alike: its
    byte is never stored. *)
Theorem raw_frame_non_ascii heap stream :
  writeToDockerRawStream heap stdout stream (Text [0xE9%N]) =
    Normal (stream ++ [[1; 0; 0; 0; 0; 0; 0; 1; heap 8%nat]])%N%list
  /\ payload (Text [0xE9%N]) = [0xC3; 0xA9]%N
  /\ decodeFrame [1; 0; 0; 0; 0; 0; 0; 1; heap 8%nat]%N
     <> Some (stdout, payload (Text [0xE9%N]))
  /\ writeToDockerRawStream heap stdout stream (Bytes [0xFF%N]) =
    Normal (stream ++ [[1; 0; 0; 0; 0; 0; 0; 1; heap 8%nat]])%N%list.
Proof.
  repeat split.
  cbn. intros H. discriminate H.
Qed.

(* ================================================================= *)
(** ** The progress stream *)

Lemma lookup_assign_same k v props : lookup k (assign k v props) = v.
Proof.
  induction props as [|[k' v'] props IH]; cbn [assign lookup].
  - rewrite String.eqb_refl. reflexivity.
  - destruct (String.eqb_spec k' k) as [->|N]; cbn [lookup].
    + rewrite String.eqb_refl. reflexivity.
    + destruct (String.eqb_spec k' k); [contradiction|]. exact IH.
Qed.

Lemma lookup_assign_other k k' v props :
  k <> k' -> lookup k' (assign k v props) = lookup k' props.
Proof.
  intros N. induction props as [|[k0 v0] props IH]; cbn [assign lookup].
  - destruct (String.eqb_spec k k'); [contradiction|]. reflexivity.
  - destruct (String.eqb_spec k0 k) as [->|N0]; cbn [lookup].
    + destruct (String.eqb_spec k k'); [contradiction|]. reflexivity.
    + rewrite IH. reflexivity.
Qed.

Lemma substr0_nonempty n s :
  s <> EmptyString -> substr0 (S n) s <> EmptyString.
Proof. destruct s; [congruence|]. discriminate. Qed.

Lemma truthy_str s : truthy (str s) = true -> s <> EmptyString.
Proof.
  cbn [truthy]. destruct (String.eqb_spec s EmptyString); [discriminate|auto].
Qed.

(** [formatProgress] on an object whose identifier is a string or is
    missing. *)
Lemma formatProgress_typed args :
  optional_string (lookup "id" args) = true ->
  formatProgress args =
  Normal [("id", str (short_id (lookup "id" args)));
          ("status", lookup "status" args);
          ("progressDetail", lookup "progressDetail" args)].
Proof.
  intros H. unfold formatProgress.
  destruct (truthy (lookup "id" args)) eqn:T.
  - destruct (lookup "id" args) as [| |b|n|s|xs|ps|m|c m];
      try (cbn in H, T; rewrite ?T in H; discriminate).
    cbn [bind short_id or].
    pose proof (substr0_nonempty 11 s (truthy_str s T)) as N.
    unfold or. cbn [truthy].
    destruct (String.eqb_spec (substr0 12 s) EmptyString); [contradiction|].
    reflexivity.
  - cbn [bind]. unfold or. rewrite T.
    destruct (lookup "id" args) as [| |b|n|s|xs|ps|m|c m]; try reflexivity.
    cbn [truthy] in T. apply negb_false_iff in T.
    apply String.eqb_eq in T. subst s. reflexivity.
Qed.

Lemma writeProgress_typed res progress :
  typed_event progress = true ->
  exists progress',
    writeProgress res progress =
    Normal ((res ++ [Write (progress_json progress)])%list, progress').
Proof.
  unfold typed_event. intros H. apply andb_prop in H as [Hi Hd].
  unfold writeProgress.
  destruct (truthy (lookup "progressDetail" progress)) eqn:T; cbn [negb].
  - rewrite (formatProgress_typed progress Hi). cbn [bind].
    unfold write_json, progress_json, progress_object.
    destruct (lookup "progressDetail" progress) as [| |b|n|s|xs|ps|m|c m];
      try (cbn in Hd, T; rewrite ?T in Hd; discriminate).
    eexists. reflexivity.
  - rewrite formatProgress_typed
      by (rewrite lookup_assign_other by discriminate; exact Hi).
    cbn [bind].
    rewrite lookup_assign_same, !lookup_assign_other by discriminate.
    unfold write_json, progress_json, progress_object.
    destruct (lookup "progressDetail" progress) as [| |b|n|s|xs|ps|m|c m];
      try discriminate; eexists; reflexivity.
Qed.

(** C4.  For a progress event whose identifier is a string or missing,
    whose status is a string and whose detail is an object or missing,
    [writeProgress] writes one chunk, the JSON text of an object with the
    three members [id], the first 12 characters of the identifier or the
    empty string, [status], the status given, and [progressDetail], the
    detail given or else the empty object: the member is never left
    out. *)
Theorem writeProgress_serialized res progress status :
  optional_string (lookup "id" progress) = true ->
  lookup "status" progress = str status ->
  optional_object (lookup "progressDetail" progress) = true ->
  exists progress' detail,
    writeProgress res progress =
      Normal ((res ++ [Write (progress_json progress)])%list, progress')
    /\ stringify (detail_or_empty (lookup "progressDetail" progress))
       = Some detail
    /\ progress_json progress =
       "{" ++ String.concat ","
                [member "id" (quote (short_id (lookup "id" progress)));
                 member "status" (quote status);
                 member "progressDetail" detail] ++ "}"
    /\ (truthy (lookup "progressDetail" progress) = false -> detail = "{}").
Proof.
  intros Hi Hs Hd.
  destruct (writeProgress_typed res progress) as [progress' W].
  { unfold typed_event. rewrite Hi, Hd. reflexivity. }
  assert (D : exists detail,
             stringify (detail_or_empty (lookup "progressDetail" progress))
             = Some detail
             /\ (truthy (lookup "progressDetail" progress) = false ->
                 detail = "{}")).
  { destruct (lookup "progressDetail" progress) as [| |b|n|s|xs|ps|m|c m];
      cbn [detail_or_empty]; try (eexists; split; [reflexivity|]; auto; fail).
    eexists. split; [reflexivity|]. discriminate. }
  destruct D as (detail & D & E).
  exists progress', detail. repeat split; try assumption.
  unfold progress_json, progress_object. rewrite Hs.
  cbn [stringify flat_map snd fst app]. rewrite D. reflexivity.
Qed.

Lemma writeProgress_serialized_witness :
  exists progress' detail,
    writeProgress [Status 200]
      [("id", str "0123456789abcdef0123"); ("status", str "Pulling")] =
      Normal ([Status 200;
               Write (progress_json
                        [("id", str "0123456789abcdef0123");
                         ("status", str "Pulling")])], progress')
    /\ stringify (object []) = Some detail
    /\ progress_json [("id", str "0123456789abcdef0123");
                      ("status", str "Pulling")] =
       "{" ++ String.concat ","
                [member "id" (quote "0123456789ab");
                 member "status" (quote "Pulling");
                 member "progressDetail" detail] ++ "}"
    /\ (truthy undefined = false -> detail = "{}").
Proof.
  apply (writeProgress_serialized [Status 200]
           [("id", str "0123456789abcdef0123"); ("status", str "Pulling")]
           "Pulling"); reflexivity.
Defined.

Lemma body_app (r1 r2 : response) :
  body (r1 ++ r2)%list = body r1 ++ body r2.
Proof.
  unfold body, chunks. rewrite flat_map_app.
  induction (flat_map _ r1) as [|c cs IH]; [reflexivity|].
  cbn [app fold_right]. rewrite IH.
  induction c as [|a c IHc]; [reflexivity|]. cbn [append]. now rewrite IHc.
Qed.

Lemma chunks_writes texts : chunks (map Write texts) = texts.
Proof.
  induction texts as [|t ts IH]; [reflexivity|].
  cbn [map chunks flat_map app] in *. unfold chunks in IH. now rewrite IH.
Qed.

(** C7, amended.  The progress events reported through [writeProgress]
    are written by one [res.write] each, in order, and each chunk is the
    JSON text of its event and nothing more, so that the body is the
    texts put end to end.  (The status line with which [imagePush] opens
    the stream is another matter: it ends in CRLF.) *)
Theorem writeProgressAll_chunks events : forall res,
  Forall (fun progress => typed_event progress = true) events ->
  writeProgressAll res events =
    Normal (res ++ map (fun progress => Write (progress_json progress))
                       events)%list
  /\ body (res ++ map (fun progress => Write (progress_json progress))
                      events)%list
     = body res ++ fold_right String.append EmptyString
                              (map progress_json events).
Proof.
  induction events as [|progress events IH]; intros res H.
  - cbn [writeProgressAll map fold_right]. rewrite app_nil_r.
    split; [reflexivity|].
    induction (body res) as [|a b IHb]; [reflexivity|].
    cbn [append]. now rewrite <- IHb.
  - inversion H as [|? ? Hp Hrest]; subst.
    destruct (writeProgress_typed res progress Hp) as [progress' W].
    cbn [writeProgressAll]. rewrite W. cbn [bind fst].
    destruct (IH (res ++ [Write (progress_json progress)])%list Hrest)
      as [-> _].
    cbn [map]. rewrite <- app_assoc. split; [reflexivity|].
    rewrite body_app. f_equal. unfold body.
    rewrite <- (map_map progress_json Write).
    change (Write (progress_json progress)
            :: map Write (map progress_json events))
      with (map Write (map progress_json (progress :: events))).
    rewrite chunks_writes. reflexivity.
Qed.

Lemma writeProgressAll_chunks_witness :
  writeProgressAll [Status 200]
    [[("id", str "0123456789abcdef0123"); ("status", str "Pulling")];
     [("status", str "Done")]] =
    Normal ([Status 200] ++
            map (fun progress => Write (progress_json progress))
              [[("id", str "0123456789abcdef0123"); ("status", str "Pulling")];
               [("status", str "Done")]])%list
  /\ body ([Status 200] ++
           map (fun progress => Write (progress_json progress))
             [[("id", str "0123456789abcdef0123"); ("status", str "Pulling")];
              [("status", str "Done")]])%list
     = body [Status 200] ++
       fold_right String.append EmptyString
         (map progress_json
            [[("id", str "0123456789abcdef0123"); ("status", str "Pulling")];
             [("status", str "Done")]]).
Proof.
  apply (writeProgressAll_chunks
           [[("id", str "0123456789abcdef0123"); ("status", str "Pulling")];
            [("status", str "Done")]] [Status 200]).
  repeat constructor.
Defined.

(* ================================================================= *)
(** ** The image endpoints *)

(** The handlers of the verbs that are not supported: [imageCreate]
    with a [fromSrc] parameter, [imageChanges], [imageGet] and
    [imageLoad] do nothing but call [next] with a
    [NotImplementedError], whose status is 501; none of them calls the
    backend or the registry. *)
Lemma unsupported_handlers drc be req :
  lookup "fromSrc" (query req) <> undefined ->
  Forall (fun evs =>
            exists feature,
              evs = [Next (NextErr (NotImplementedError feature))]
              /\ statusCode (NotImplementedError feature) = Some 501%Z
              /\ filter is_call evs = [])
         [imageCreate drc be req; imageChanges req; imageGet req;
          imageLoad req].
Proof.
  intros H.
  assert (F : is_undefined (lookup "fromSrc" (query req)) = false)
    by (destruct (lookup "fromSrc" (query req)); [congruence|reflexivity..]).
  repeat constructor.
  - exists "image create". unfold imageCreate. rewrite F. now repeat split.
  - exists "image changes". now repeat split.
  - exists "image get". now repeat split.
  - exists "image load". now repeat split.
Qed.

(** C8 as stated fails: [imageCreate] answers a reference that does not
    parse with a [DockerError], not with a [ValidationError]. *)
Lemma imageCreate_malformed_reference :
  parseRepoAndRef picky (lookup "fromImage" (query bad_pull))
    = ParseError (error "invalid repository name")
  /\ failure (imageCreate picky reporting bad_pull)
     = Some (DockerError (error "invalid repository name")
                         (str "Error: invalid repository name"))
  /\ forall cause message,
       failure (imageCreate picky reporting bad_pull)
       <> Some (ValidationError cause message).
Proof. repeat split. intros cause message. discriminate. Qed.

(** C7 as stated fails on a push response: the status object that opens
    the stream is written with CRLF after it, so that the JSON objects
    of the body do not follow each other without a delimiter. *)
Lemma imagePush_delimiter :
  exists first second,
    stringify (object [("status",
                        str "The push refers to a repository [docker.io/busybox]")])
      = Some first
    /\ stringify (object [("id", str "0123456789ab"); ("status", str "Pushed");
                          ("progressDetail", object [])]) = Some second
    /\ chunks (response_of (imagePush lenient reporting push_request))
       = [first ++ CRLF; second]
    /\ body (response_of (imagePush lenient reporting push_request))
       <> first ++ second.
Proof.
  eexists. eexists. repeat split. vm_compute. discriminate.
Qed.

(** The push handler opens the stream with a status line that ends in
    CRLF. *)
Lemma imagePush_opening drc be req rat :
  parses Push req = true ->
  parseRepoAndTag drc (lookup "name" (params req)) = Parsed rat ->
  exists first rest,
    stringify (object [("status",
                        str ("The push refers to a repository ["
                             ++ to_string (lookup "canonicalName" rat)
                             ++ "]"))]) = Some first
    /\ imagePush drc be req =
       (Res (Status 200) :: Res (Header "Content-Type" "application/json")
        :: Res (Write (first ++ CRLF)) :: rest)%list.
Proof.
  intros P E. cbn [parses] in P. unfold imagePush. rewrite P, E.
  cbn [negb]. eexists. eexists. split; reflexivity.
Qed.

(* ================================================================= *)
(** ** Create and delete cycles of a volume *)

Section Cycle.
Variables a n : string.

Lemma list_live s : list_ a volume (Some n) s = filter (live a n) (records s).
Proof.
  unfold list_. apply filter_ext. intros r. unfold live, matches.
  destruct (account r =? a), (kind_eqb (rkind r) volume), (is_ready r),
    (name r =? n); reflexivity.
Qed.

Lemma none_live s : listed a n s = 0 -> filter (live a n) (records s) = [].
Proof.
  unfold listed. rewrite list_live. intros H.
  apply length_zero_iff_nil. exact H.
Qed.

Lemma set_state_fresh i st rs :
  Forall (fun r => id r < i) rs ->
  map (fun r => if (id r =? i)%nat then with_state st r else r) rs = rs.
Proof.
  induction 1 as [|r rs Hr _ IH]; [reflexivity|].
  cbn [map]. rewrite IH.
  destruct (Nat.eqb_spec (id r) i); [lia|reflexivity].
Qed.

Lemma remove_fresh i rs :
  Forall (fun r => id r < i) rs ->
  filter (fun r => negb (id r =? i)%nat) rs = rs.
Proof.
  induction 1 as [|r rs Hr _ IH]; [reflexivity|].
  cbn [filter]. rewrite IH.
  destruct (Nat.eqb_spec (id r) i); [lia|reflexivity].
Qed.

Lemma live_fresh s : live a n (fresh a n s) = true.
Proof.
  unfold live, matches, fresh. cbn. rewrite !String.eqb_refl. reflexivity.
Qed.

Lemma create_fresh s :
  well_formed s -> listed a n s = 0 ->
  create a volume n (Callback undefined) s = (Ok (next_id s), created_in a n s)
  /\ listed a n (created_in a n s) = 1.
Proof.
  intros W Z. pose proof (none_live s Z) as F.
  assert (R : filter (live a n) (records (created_in a n s)) = [fresh a n s]).
  { cbn [created_in records]. rewrite filter_app, F. cbn [filter app].
    rewrite live_fresh. reflexivity. }
  split.
  - unfold create, insert. cbn [truthy].
    assert (E : set_state (next_id s) ready
                  {| records := records s ++
                       [{| id := next_id s; name := n; rkind := volume;
                           rstate := creating; created := now s;
                           account := a |}];
                     next_id := S (next_id s); now := S (now s) |}
                = created_in a n s).
    { unfold set_state, created_in. cbn [records next_id now]. f_equal.
      rewrite map_app, (set_state_fresh _ _ _ W). cbn [map id].
      rewrite Nat.eqb_refl. reflexivity. }
    rewrite E. unfold resolve. fold (live a n). rewrite R. reflexivity.
  - unfold listed. rewrite list_live, R. reflexivity.
Qed.

Lemma delete_fresh s :
  well_formed s -> listed a n s = 0 ->
  delete a volume n (Callback undefined) (created_in a n s)
    = (Ok (next_id s), deleted_in s)
  /\ listed a n (deleted_in s) = 0
  /\ well_formed (deleted_in s).
Proof.
  intros W Z. pose proof (none_live s Z) as F. repeat split.
  - unfold delete, resolve. fold (live a n).
    cbn [created_in records]. rewrite filter_app, F. cbn [filter app].
    rewrite live_fresh. cbn [truthy fresh id].
    unfold remove, set_state, deleted_in. cbn [records next_id now].
    f_equal. f_equal. cbn [created_in records].
    rewrite map_app, (set_state_fresh _ _ _ W). cbn [map fresh id].
    rewrite Nat.eqb_refl, filter_app, (remove_fresh _ _ W).
    cbn [filter with_state id]. rewrite Nat.eqb_refl. apply app_nil_r.
  - exact Z.
  - unfold well_formed in *. cbn [deleted_in records next_id].
    eapply Forall_impl; [|exact W]. cbn. intros r Hr. lia.
Qed.

Lemma cycles_S k s :
  well_formed s -> listed a n s = 0 ->
  cycles (S k) a n s =
  {| created_id := Ok (next_id s); after_create := 1;
     removed_id := Ok (next_id s); after_delete := 0 |}
  :: cycles k a n (deleted_in s).
Proof.
  intros W Z. cbn [cycles].
  destruct (create_fresh s W Z) as [-> C].
  destruct (delete_fresh s W Z) as (-> & D & _).
  rewrite C, D. reflexivity.
Qed.

Lemma cycles_nth k : forall s j o,
  well_formed s -> listed a n s = 0 ->
  nth_error (cycles k a n s) j = Some o ->
  o = {| created_id := Ok (next_id s + j); after_create := 1;
         removed_id := Ok (next_id s + j); after_delete := 0 |}.
Proof.
  induction k as [|k IH]; intros s j o W Z H.
  - destruct j; discriminate H.
  - rewrite (cycles_S k s W Z) in H.
    destruct (delete_fresh s W Z) as (_ & Z' & W').
    destruct j as [|j]; cbn [nth_error] in H.
    + injection H as <-. rewrite Nat.add_0_r. reflexivity.
    + rewrite (IH _ _ _ W' Z' H). cbn [deleted_in next_id].
      rewrite Nat.add_succ_r. reflexivity.
Qed.

End Cycle.

(** C2.  In a store without a ready volume called [n] for the account
    [a], whatever other rows it holds, [k] cycles of create and delete
    under that name list exactly one volume called [n] after each create
    and none after each delete, each delete removes the record its cycle
    created, and the identifiers created by two cycles in a row
    differ. *)
Theorem create_delete_cycles k a n s :
  well_formed s -> listed a n s = 0 ->
  List.length (cycles k a n s) = k
  /\ Forall (fun o => after_create o = 1 /\ after_delete o = 0
                      /\ exists i, created_id o = Ok i /\ removed_id o = Ok i)
            (cycles k a n s)
  /\ forall j o1 o2,
       nth_error (cycles k a n s) j = Some o1 ->
       nth_error (cycles k a n s) (S j) = Some o2 ->
       created_id o1 <> created_id o2.
Proof.
  intros W Z. repeat split.
  - revert s W Z. induction k as [|k IH]; intros s W Z; [reflexivity|].
    rewrite (cycles_S a n k s W Z). cbn [List.length]. f_equal.
    destruct (delete_fresh a n s W Z) as (_ & Z' & W'). apply IH; assumption.
  - apply Forall_forall. intros o Ho.
    apply In_nth_error in Ho as [j Hj].
    rewrite (cycles_nth a n k s j o W Z Hj). cbn. eauto.
  - intros j o1 o2 H1 H2.
    rewrite (cycles_nth a n k s j o1 W Z H1).
    rewrite (cycles_nth a n k s (S j) o2 W Z H2). cbn.
    intros E. injection E. lia.
Qed.

Lemma create_delete_cycles_witness :
  List.length (cycles 2 "alice" "foo" stale_store) = 2
  /\ Forall (fun o => after_create o = 1 /\ after_delete o = 0
                      /\ exists i, created_id o = Ok i /\ removed_id o = Ok i)
            (cycles 2 "alice" "foo" stale_store)
  /\ forall j o1 o2,
       nth_error (cycles 2 "alice" "foo" stale_store) j = Some o1 ->
       nth_error (cycles 2 "alice" "foo" stale_store) (S j) = Some o2 ->
       created_id o1 <> created_id o2.
Proof.
  apply (create_delete_cycles 2 "alice" "foo" stale_store).
  - repeat constructor.
  - reflexivity.
Defined.

(** The scenario of the regression test: create [foo], list, delete
    [foo], list, and the same again. *)
Example docker_880 :
  cycles 2 "alice" "foo" stale_store =
  [{| created_id := Ok 5; after_create := 1;
      removed_id := Ok 5; after_delete := 0 |};
   {| created_id := Ok 6; after_create := 1;
      removed_id := Ok 6; after_delete := 0 |}].
Proof. reflexivity. Qed.

(* ================================================================= *)
(** ** More on the poll loop *)

Import MoreSamples.

Section PollingBounds.
Variable client : wfClient.
Variable job_uuid : string.

(** Every run of the loop: how many polls it takes at most, and that
    between two polls it waits [timeout]. *)
Lemma poll_bounded : forall fuel attempts errors,
  errors <= 4 -> (limit - attempts) + (4 - errors) < fuel ->
  exists tr r,
    poll fuel client job_uuid attempts errors = (tr, Some r)
    /\ polls tr <= S ((limit - attempts) + (4 - errors))
    /\ waits tr = repeat timeout (polls tr - 1)
    /\ 1 <= polls tr.
Proof.
  induction fuel as [|fuel IH]; intros attempts errors He Hf; [lia|].
  rewrite poll_S. destruct (getJob client job_uuid attempts) as [err job].
  assert (One : forall r : value * value,
             exists tr r',
               ([GetJob job_uuid], Some r) = (tr, Some r')
               /\ polls tr <= S ((limit - attempts) + (4 - errors))
               /\ waits tr = repeat timeout (polls tr - 1)
               /\ 1 <= polls tr).
  { intros r. exists [GetJob job_uuid], r. unfold polls, waits.
    cbn [filter List.length flat_map app Nat.sub repeat].
    repeat split; lia. }
  assert (More : forall a' e',
             e' <= 4 -> (limit - a') + (4 - e') < fuel ->
             (limit - a') + (4 - e') < (limit - attempts) + (4 - errors) ->
             exists tr r',
               (let '(tr, r) := poll fuel client job_uuid a' e' in
                (GetJob job_uuid :: SetTimeout timeout :: tr, r))
               = (tr, Some r')
               /\ polls tr <= S ((limit - attempts) + (4 - errors))
               /\ waits tr = repeat timeout (polls tr - 1)
               /\ 1 <= polls tr).
  { intros a' e' He' Hf' Hd.
    destruct (IH a' e' He' Hf') as (tr & r & -> & Hp & Hw & H1).
    exists (GetJob job_uuid :: SetTimeout timeout :: tr), r.
    unfold polls, waits in *. cbn [filter List.length flat_map app].
    rewrite Hw. repeat split; try lia.
    destruct (List.length _) as [|p]; [lia|].
    cbn [Nat.sub repeat]. rewrite Nat.sub_0_r. reflexivity. }
  destruct (truthy err).
  - destruct (Nat.leb_spec 5 (S errors)); [apply One|].
    apply More; lia.
  - destruct (truthy job && is_string (get job "execution") "succeeded");
      [apply One|].
    destruct (truthy job && is_string (get job "execution") "failed");
      [apply One|].
    destruct (Nat.ltb_spec limit (S attempts)); [apply One|].
    apply More; lia.
Qed.

End PollingBounds.

(** X1.  Whatever the client answers, [waitForJob] comes to an end, by
    calling back or by a throw of its callback, after at most 725 calls
    of [getJob], and it sets the timer to 1000 ms between each call and
    the next one. *)
Theorem waitForJob_bounded client job_uuid :
  exists tr o,
    waitForJob client job_uuid = (tr, Some o)
    /\ 1 <= polls tr <= 725
    /\ waits tr = repeat 1000%Z (polls tr - 1).
Proof.
  destruct (poll_bounded client job_uuid (limit + 5) 0 0)
    as (tr & [err job] & P & Hp & Hw & H1); [lia|lia|].
  exists tr, (onPolled err job). unfold waitForJob, pollJob. rewrite P.
  split; [reflexivity|]. split; [|exact Hw].
  split; [exact H1|]. rewrite Nat.sub_0_r in Hp.
  change 725 with (S (limit + (4 - 0))). exact Hp.
Qed.

(** The bound is reached: 720 polls of a running job, then four fetch
    errors, then the poll that times out. *)
Example waitForJob_725_polls :
  let client :=
    {| getJob := fun _ i =>
         if ((720 <=? i) && (i <? 724))%nat then (refused, undefined)
         else (null, running_job) |} in
  polls (fst (waitForJob client "a1fb11c0")) = 725
  /\ snd (waitForJob client "a1fb11c0")
     = Some (Callback (error "polling for job timed out")).
Proof. vm_compute. split; reflexivity. Qed.

(** X2.  A terminal job without a last step result makes the callback of
    [waitForJob] throw: when [chain_results] is not an array, or is
    empty, or ends in [null], [cb] is never called. *)
Theorem waitForJob_no_step_result client job_uuid k err props :
  (forall i, i < k -> keeps_polling client job_uuid i = true) ->
  errors_before client job_uuid k <= 4 ->
  getJob client job_uuid k = (err, object props) ->
  truthy err = false ->
  terminal (object props) = true ->
  (forall results, lookup "chain_results" props = array results ->
                   nullish (last results undefined) = true) ->
  snd (waitForJob client job_uuid) = Some (Uncaught "TypeError").
Proof.
  intros Hk He E T Ht N.
  rewrite (waitForJob_ends client job_uuid k err (object props) Hk He E)
    by (right; split; assumption).
  cbn [snd]. rewrite T. unfold onPolled. cbn [truthy nullish get].
  destruct (lookup "chain_results" props) as [| |b|n|s|results|ps|m|c m] eqn:C;
    try reflexivity.
  rewrite (N results eq_refl). reflexivity.
Qed.

Lemma waitForJob_no_step_result_witness :
  snd (waitForJob (flaky 1 empty_job) "a1fb11c0")
  = Some (Uncaught "TypeError").
Proof.
  apply (waitForJob_no_step_result (flaky 1 empty_job) "a1fb11c0" 1 null
           [("uuid", str "a1fb11c0"); ("execution", str "succeeded");
            ("chain_results", array [])]).
  - intros i Hi. apply flaky_keeps_polling. exact Hi.
  - vm_compute. lia.
  - reflexivity.
  - reflexivity.
  - reflexivity.
  - intros results H. injection H as <-. reflexivity.
Defined.

Section Errors.
Variable client : wfClient.
Variable job_uuid : string.

Lemma errors_before_mono k : forall n,
  errors_before client job_uuid k <= errors_before client job_uuid (n + k).
Proof.
  induction n as [|n IH]; [apply le_n|]. cbn [Nat.add errors_before]. lia.
Qed.

(** If the answers from [a] on are fetch errors, [n] of them, the count
    grows by [n]. *)
Lemma errors_before_run a : forall n,
  (forall j, j < n -> truthy (fst (getJob client job_uuid (a + j))) = true) ->
  errors_before client job_uuid (a + n) = errors_before client job_uuid a + n.
Proof.
  induction n as [|n IH]; intros H.
  - rewrite !Nat.add_0_r. reflexivity.
  - rewrite Nat.add_succ_r. cbn [errors_before].
    rewrite IH by (intros j Hj; apply H; lia).
    rewrite (H n) by lia. lia.
Qed.

(** From [a] on, the first answer that is not a fetch error, if one
    comes within [n] answers. *)
Lemma first_fetched a : forall n,
  (forall j, j < n -> truthy (fst (getJob client job_uuid (a + j))) = true)
  \/ exists j, j < n
       /\ truthy (fst (getJob client job_uuid (a + j))) = false
       /\ forall i, i < j ->
            truthy (fst (getJob client job_uuid (a + i))) = true.
Proof.
  induction n as [|n [All | (j & Hj & F & B)]].
  - left. intros j Hj. lia.
  - destruct (truthy (fst (getJob client job_uuid (a + n)))) eqn:T.
    + left. intros j Hj. destruct (Nat.eq_dec j n) as [->|]; [exact T|].
      apply All. lia.
    + right. exists n. repeat split; [lia|exact T|]. intros i Hi.
      apply All. exact Hi.
  - right. exists j. repeat split; [lia|exact F|exact B].
Qed.

End Errors.

(** X3.  Fetch errors use up attempts but never time out by themselves:
    when no fetched job is terminal and the client fails at most four
    times in all, [waitForJob] calls back with the timeout error at the
    first answer from the 721st on that is not a fetch error, that is
    after 721 to 725 polls. *)
Theorem waitForJob_times_out_after_errors client job_uuid :
  (forall i, truthy (fst (getJob client job_uuid i)) = false ->
             terminal (snd (getJob client job_uuid i)) = false) ->
  (forall k, errors_before client job_uuid k <= 4) ->
  snd (waitForJob client job_uuid)
    = Some (Callback (error "polling for job timed out"))
  /\ 721 <= polls (fst (waitForJob client job_uuid)) <= 725.
Proof.
  intros Hn He.
  destruct (first_fetched client job_uuid limit 5) as [All | (j & Hj & F & B)].
  - pose proof (errors_before_run client job_uuid limit 5 All) as R.
    pose proof (He (limit + 5)). lia.
  - assert (K : forall i, i < limit + j ->
                  keeps_polling client job_uuid i = true).
    { intros i Hi. unfold keeps_polling.
      destruct (getJob client job_uuid i) as [err job] eqn:E.
      destruct (truthy err) eqn:T; [reflexivity|]. cbn [orb].
      pose proof (Hn i) as Hi'. rewrite E in Hi'. cbn [fst snd] in Hi'.
      rewrite (Hi' T). cbn [negb andb]. apply Nat.leb_le.
      destruct (Nat.le_gt_cases (S i) limit) as [L|L]; [exact L|].
      specialize (B (i - limit) ltac:(lia)).
      replace (limit + (i - limit)) with i in B by lia.
      rewrite E in B. cbn [fst] in B. congruence. }
    destruct (pollJob_ahead client job_uuid (limit + j) K (He _))
      as [fuel P].
    destruct (getJob client job_uuid (limit + j)) as [err job] eqn:E.
    cbn [fst] in F. pose proof (Hn (limit + j)) as N. rewrite E in N.
    cbn [fst snd] in N.
    rewrite (poll_timed_out _ _ _ _ _ err job E F (N F)) in P by lia.
    unfold waitForJob. rewrite P. cbn [fst snd].
    split; [reflexivity|]. rewrite polls_polling.
    change 721 with (S limit). change 725 with (S (limit + 4)). lia.
Qed.

Lemma waitForJob_times_out_after_errors_witness :
  snd (waitForJob (flaky 3 running_job) "a1fb11c0")
    = Some (Callback (error "polling for job timed out"))
  /\ 721 <= polls (fst (waitForJob (flaky 3 running_job) "a1fb11c0")) <= 725.
Proof.
  apply (waitForJob_times_out_after_errors (flaky 3 running_job) "a1fb11c0").
  - intros i _. cbn [flaky getJob]. destruct (i <? 3)%nat; reflexivity.
  - intros k. induction k as [|k IH]; [cbn; lia|].
    cbn [errors_before flaky getJob] in *.
    destruct (Nat.ltb_spec k 3) as [L|L]; cbn [fst truthy refused].
    + clear IH. do 3 (destruct k as [|k]; [cbn; lia|]). lia.
    + lia.
Defined.

(* ================================================================= *)
(** ** More on raw frames and progress messages *)

Lemma land_byte v : (N.land v 0xFF < 256)%N.
Proof.
  change 0xFF%N with (N.ones 8). rewrite N.land_ones.
  apply N.mod_lt. discriminate.
Qed.

(** X4.  For data of fewer than 2^32 units, [writeToDockerRawStream]
    adds one message to the stream and leaves the earlier ones alone.  The
    message is the channel code, three zero bytes, [data.length] in four
    bytes, the most significant first, and [data.length] more bytes: the
    UTF-8 text of the leading characters of [data.toString()] that fit
    whole, and after them what the fresh buffer held. *)
Theorem raw_frame_layout heap type stream data :
  (N.of_nat (chunk_length data) <= 0xFFFFFFFF)%N ->
  exists b3 b2 b1 b0 stored junk,
    writeToDockerRawStream heap type stream data =
      Normal (stream ++
              [STREAM_TYPES type :: 0 :: 0 :: 0 :: b3 :: b2 :: b1 :: b0
               :: stored ++ junk])%N%list
    /\ (b3 < 256 /\ b2 < 256 /\ b1 < 256 /\ b0 < 256)%N
    /\ (b3 * 2 ^ 24 + b2 * 2 ^ 16 + b1 * 2 ^ 8 + b0
        = N.of_nat (chunk_length data))%N
    /\ stored = utf8_fit (code_points (chunk_toString data))
                         (chunk_length data)
    /\ junk = skipn (List.length stored)
                    (map heap (seq 8 (chunk_length data)))
    /\ List.length (stored ++ junk) = chunk_length data.
Proof.
  intros H. pose proof (writeToDockerRawStream_frame heap type stream data H)
    as F. cbn zeta in F. unfold be32 in F. cbn [app] in F.
  do 6 eexists. split; [exact F|].
  split; [repeat split; apply land_byte|].
  split; [exact (readUInt32BE_be32 _ H)|].
  split; [reflexivity|]. split; [reflexivity|].
  rewrite length_app, length_skipn, length_map, length_seq.
  pose proof (utf8_fit_length (code_points (chunk_toString data))
                (chunk_length data)). lia.
Qed.

Lemma raw_frame_layout_witness :
  exists b3 b2 b1 b0 stored junk,
    writeToDockerRawStream (fun _ => 0xAA%N) stdout [] (Text [0x68; 0xE9]%N) =
      Normal ([] ++
              [STREAM_TYPES stdout :: 0 :: 0 :: 0 :: b3 :: b2 :: b1 :: b0
               :: stored ++ junk])%N%list
    /\ (b3 < 256 /\ b2 < 256 /\ b1 < 256 /\ b0 < 256)%N
    /\ (b3 * 2 ^ 24 + b2 * 2 ^ 16 + b1 * 2 ^ 8 + b0
        = N.of_nat (chunk_length (Text [0x68; 0xE9]%N)))%N
    /\ stored = utf8_fit (code_points (chunk_toString (Text [0x68; 0xE9]%N)))
                         (chunk_length (Text [0x68; 0xE9]%N))
    /\ junk = skipn (List.length stored)
                    (map (fun _ => 0xAA%N)
                         (seq 8 (chunk_length (Text [0x68; 0xE9]%N))))
    /\ List.length (stored ++ junk) = chunk_length (Text [0x68; 0xE9]%N).
Proof.
  apply (raw_frame_layout (fun _ => 0xAA%N) stdout [] (Text [0x68; 0xE9]%N)).
  vm_compute. discriminate.
Defined.

(** X5.  Data that is ASCII text, a string or a [Buffer] alike, is
    carried as it is: the message is the header followed by the code
    units, one byte each. *)
Theorem raw_frame_ascii_bytes heap type stream data us :
  data = Text us \/ data = Bytes us ->
  ascii_only us ->
  (N.of_nat (List.length us) <= 0xFFFFFFFF)%N ->
  writeToDockerRawStream heap type stream data =
    Normal (stream ++
            [STREAM_TYPES type :: 0 :: 0 :: 0 ::
             be32 (N.of_nat (List.length us)) ++ us])%N%list.
Proof.
  intros D A L. exact (proj1 (raw_frame_ascii heap type stream data us D A L)).
Qed.

Lemma raw_frame_ascii_bytes_witness :
  writeToDockerRawStream (fun _ => 0xAA%N) stdin [[7%N]]
    (Bytes [0x6F; 0x6B; 0x0A]%N) =
    Normal ([[7%N]] ++
            [STREAM_TYPES stdin :: 0 :: 0 :: 0 ::
             be32 (N.of_nat (List.length [0x6F; 0x6B; 0x0A]%N))
             ++ [0x6F; 0x6B; 0x0A]])%N%list.
Proof.
  apply (raw_frame_ascii_bytes (fun _ => 0xAA%N) stdin [[7%N]]
           (Bytes [0x6F; 0x6B; 0x0A]%N) [0x6F; 0x6B; 0x0A]%N).
  - right. reflexivity.
  - repeat constructor.
  - vm_compute. discriminate.
Defined.

(** X6.  [writeStatus] does not supply the detail that [writeProgress]
    supplies: for an event without [progressDetail] it writes an object
    with the members [id] and [status] only. *)
Theorem writeStatus_without_detail res progress status :
  optional_string (lookup "id" progress) = true ->
  lookup "status" progress = str status ->
  lookup "progressDetail" progress = undefined ->
  writeStatus res progress =
    Normal (res ++
            [Write ("{" ++ String.concat ","
                      [member "id" (quote (short_id (lookup "id" progress)));
                       member "status" (quote status)] ++ "}")])%list.
Proof.
  intros Hi Hs Hd. unfold writeStatus.
  rewrite (formatProgress_typed progress Hi), Hs, Hd. reflexivity.
Qed.

Lemma writeStatus_without_detail_witness :
  writeStatus [Status 200] [("status", str "Download complete")] =
    Normal ([Status 200] ++
            [Write ("{" ++ String.concat ","
                      [member "id" (quote (short_id undefined));
                       member "status" (quote "Download complete")]
                    ++ "}")])%list.
Proof.
  apply (writeStatus_without_detail [Status 200]
           [("status", str "Download complete")] "Download complete");
    reflexivity.
Defined.

(** X7.  Given an event with a detail object, [writeProgress] and
    [writeStatus] write the same chunk, and [writeProgress] leaves the
    event as it was. *)
Theorem writeProgress_with_detail res progress detail :
  optional_string (lookup "id" progress) = true ->
  lookup "progressDetail" progress = object detail ->
  writeProgress res progress =
    Normal ((res ++ [Write (progress_json progress)])%list, progress)
  /\ writeStatus res progress =
     Normal (res ++ [Write (progress_json progress)])%list.
Proof.
  intros Hi Hd. unfold writeProgress, writeStatus.
  rewrite Hd. cbn [truthy negb].
  rewrite (formatProgress_typed progress Hi). cbn [bind].
  unfold write_json, progress_json, progress_object. rewrite Hd.
  split; reflexivity.
Qed.

Lemma writeProgress_with_detail_witness :
  writeProgress []
    [("id", str "4bb5a2"); ("status", str "Downloading");
     ("progressDetail", object [("current", number 512)])] =
    Normal (([] ++
             [Write (progress_json
                       [("id", str "4bb5a2"); ("status", str "Downloading");
                        ("progressDetail",
                         object [("current", number 512)])])])%list,
            [("id", str "4bb5a2"); ("status", str "Downloading");
             ("progressDetail", object [("current", number 512)])])
  /\ writeStatus []
       [("id", str "4bb5a2"); ("status", str "Downloading");
        ("progressDetail", object [("current", number 512)])] =
     Normal ([] ++
             [Write (progress_json
                       [("id", str "4bb5a2"); ("status", str "Downloading");
                        ("progressDetail",
                         object [("current", number 512)])])])%list.
Proof.
  apply (writeProgress_with_detail []
           [("id", str "4bb5a2"); ("status", str "Downloading");
            ("progressDetail", object [("current", number 512)])]
           [("current", number 512)]); reflexivity.
Defined.

(** X8.  An identifier that is neither a string nor falsy, a number for
    one, has no [substr]: [formatProgress] throws a TypeError, and so do
    [writeProgress] and [writeStatus], before they write anything. *)
Theorem progress_id_not_a_string res progress :
  truthy (lookup "id" progress) = true ->
  (forall s, lookup "id" progress <> str s) ->
  formatProgress progress = Throw "TypeError"
  /\ writeProgress res progress = Throw "TypeError"
  /\ writeStatus res progress = Throw "TypeError".
Proof.
  intros T N.
  assert (F : forall args, lookup "id" args = lookup "id" progress ->
                           formatProgress args = Throw "TypeError").
  { intros args E. unfold formatProgress. rewrite E, T.
    destruct (lookup "id" progress) as [| |b|n|s|xs|ps|m|c m];
      try reflexivity. destruct (N s eq_refl). }
  split; [apply F; reflexivity|]. split.
  - unfold writeProgress.
    destruct (negb (truthy (lookup "progressDetail" progress))).
    + rewrite F; [reflexivity|]. apply lookup_assign_other. discriminate.
    + rewrite F; reflexivity.
  - unfold writeStatus. rewrite F; reflexivity.
Qed.

Lemma progress_id_not_a_string_witness :
  formatProgress [("id", number 42); ("status", str "Pulling")]
    = Throw "TypeError"
  /\ writeProgress [Status 200] [("id", number 42); ("status", str "Pulling")]
     = Throw "TypeError"
  /\ writeStatus [Status 200] [("id", number 42); ("status", str "Pulling")]
     = Throw "TypeError".
Proof.
  apply (progress_id_not_a_string [Status 200]
           [("id", number 42); ("status", str "Pulling")]).
  - reflexivity.
  - intros s. discriminate.
Defined.

(** X9.  [writeProgress] changes the object it is given: an event
    without detail comes back with [progressDetail] set to the empty
    object and its other properties as they were, so that a later
    [writeStatus] of the same object writes the detail too. *)
Theorem writeProgress_sets_detail res res' progress :
  optional_string (lookup "id" progress) = true ->
  truthy (lookup "progressDetail" progress) = false ->
  exists progress',
    writeProgress res progress =
      Normal ((res ++ [Write (progress_json progress)])%list, progress')
    /\ lookup "progressDetail" progress' = object []
    /\ (forall k, k <> "progressDetail" ->
                  lookup k progress' = lookup k progress)
    /\ writeStatus res' progress' =
       Normal (res' ++ [Write (progress_json progress)])%list.
Proof.
  intros Hi Hd.
  exists (assign "progressDetail" (object []) progress).
  assert (Hi' : optional_string
                  (lookup "id" (assign "progressDetail" (object []) progress))
                = true)
    by (rewrite lookup_assign_other by discriminate; exact Hi).
  assert (J : forall r : response,
             write_json r
               [("id", str (short_id (lookup "id" progress)));
                ("status", lookup "status" progress);
                ("progressDetail", object [])]
             = (r ++ [Write (progress_json progress)])%list).
  { intros r. unfold write_json, progress_json, progress_object.
    destruct (lookup "progressDetail" progress) as [| |b|n|s|xs|ps|m|c m];
      try discriminate; reflexivity. }
  repeat split.
  - unfold writeProgress. rewrite Hd. cbn [negb].
    rewrite (formatProgress_typed _ Hi'). cbn [bind].
    rewrite lookup_assign_same, !lookup_assign_other by discriminate.
    rewrite J. reflexivity.
  - apply lookup_assign_same.
  - intros k Hk. apply lookup_assign_other. congruence.
  - unfold writeStatus. rewrite (formatProgress_typed _ Hi'). cbn [bind].
    rewrite lookup_assign_same, !lookup_assign_other by discriminate.
    rewrite J. reflexivity.
Qed.

Lemma writeProgress_sets_detail_witness :
  exists progress',
    writeProgress [] [("status", str "Pulling")] =
      Normal (([] ++ [Write (progress_json [("status", str "Pulling")])])%list,
              progress')
    /\ lookup "progressDetail" progress' = object []
    /\ (forall k, k <> "progressDetail" ->
                  lookup k progress' = lookup k [("status", str "Pulling")])
    /\ writeStatus [Status 200] progress' =
       Normal ([Status 200]
               ++ [Write (progress_json [("status", str "Pulling")])])%list.
Proof.
  apply (writeProgress_sets_detail [] [Status 200]
           [("status", str "Pulling")]); reflexivity.
Defined.

(* ================================================================= *)
(** ** More on the image endpoints *)

Import Handlers.

(** X10.  A pull of a reference that names no tag, without a [tag]
    parameter, is [docker pull -a]: when the reference parses with the
    default tag [latest] and does not itself end in [:latest],
    [imageCreate] answers with a [NotImplementedError] and calls neither
    the backend nor the response. *)
Theorem imageCreate_pull_all drc be req s rat :
  lookup "fromSrc" (query req) = undefined ->
  truthy (lookup "tag" (query req)) = false ->
  lookup "fromImage" (query req) = str s ->
  slice_last 7 s <> ":latest" ->
  parseRepoAndRef drc (str s) = Parsed rat ->
  lookup "tag" rat = str "latest" ->
  imageCreate drc be req =
    [ConnSetTimeout 150000;
     Next (NextErr (NotImplementedError "docker pull -a"))].
Proof.
  intros F T I S P L. unfold imageCreate, pull_all.
  rewrite F, I, P, T, L. cbn [is_undefined negb is_string].
  destruct (String.eqb_spec (slice_last 7 s) ":latest"); [contradiction|].
  reflexivity.
Qed.

Lemma imageCreate_pull_all_witness :
  imageCreate lenient reporting pull_everything =
    [ConnSetTimeout 150000;
     Next (NextErr (NotImplementedError "docker pull -a"))].
Proof.
  apply (imageCreate_pull_all lenient reporting pull_everything
           "busybox" busybox); try reflexivity.
  discriminate.
Defined.

Lemma lookup_assign k k' v props :
  lookup k' (assign k v props) = if k =? k' then v else lookup k' props.
Proof.
  destruct (String.eqb_spec k k') as [->|N].
  - apply lookup_assign_same.
  - apply lookup_assign_other. exact N.
Qed.

(** X11.  A [tag] parameter overrides the tag of the reference: the
    backend is asked to pull the parsed reference with its tag replaced
    by the parameter and every other property as parsed, the digest
    included; when the parameter starts with [sha256:], with the
    parameter as digest, an empty tag and every other property as
    parsed.  The response then gets status 200 and its content type
    before the backend runs, is ended after it, and the handler calls
    [next(false)]. *)
Theorem imageCreate_tag_parameter drc be req rat t :
  lookup "fromSrc" (query req) = undefined ->
  parseRepoAndRef drc (lookup "fromImage" (query req)) = Parsed rat ->
  lookup "tag" (query req) = str t ->
  t <> EmptyString ->
  exists rat',
    imageCreate drc be req =
      (ConnSetTimeout 150000 :: Res (Status 200)
       :: Res (Header "Content-Type" "application/json")
       :: Backend "pullImage" (object rat')
       :: map Res (pullImage be rat')
       ++ [RemoveSocket "job" (lookup "canonicalName" rat');
           Res End_; Next NextFalse])%list
    /\ rat' = (if substr0 7 t =? "sha256:"
               then assign "tag" (str EmptyString)
                           (assign "digest" (str t) rat)
               else assign "tag" (str t) rat)
    /\ (if substr0 7 t =? "sha256:"
        then lookup "digest" rat' = str t
             /\ lookup "tag" rat' = str EmptyString
             /\ forall k, k <> "tag" -> k <> "digest" ->
                          lookup k rat' = lookup k rat
        else lookup "tag" rat' = str t
             /\ forall k, k <> "tag" -> lookup k rat' = lookup k rat).
Proof.
  intros F P T N.
  assert (Tt : truthy (str t) = true).
  { cbn [truthy]. destruct (String.eqb_spec t EmptyString);
      [congruence|reflexivity]. }
  unfold imageCreate, pull_all, apply_tag. rewrite F, P, T, Tt.
  cbn [is_undefined negb].
  destruct (substr0 7 t =? "sha256:") eqn:D.
  - eexists. split; [reflexivity|]. split; [reflexivity|].
    split; [|split].
    + rewrite lookup_assign_other by discriminate. apply lookup_assign_same.
    + apply lookup_assign_same.
    + intros k K1 K2. rewrite !lookup_assign_other by congruence.
      reflexivity.
  - eexists. split; [reflexivity|]. split; [reflexivity|]. split.
    + apply lookup_assign_same.
    + intros k K1. rewrite lookup_assign_other by congruence.
      reflexivity.
Qed.

Lemma imageCreate_tag_parameter_witness :
  exists rat',
    imageCreate lenient reporting pull_by_digest =
      (ConnSetTimeout 150000 :: Res (Status 200)
       :: Res (Header "Content-Type" "application/json")
       :: Backend "pullImage" (object rat')
       :: map Res (pullImage reporting rat')
       ++ [RemoveSocket "job" (lookup "canonicalName" rat');
           Res End_; Next NextFalse])%list
    /\ rat' = (if substr0 7 "sha256:4bb5a2" =? "sha256:"
               then assign "tag" (str EmptyString)
                           (assign "digest" (str "sha256:4bb5a2") busybox)
               else assign "tag" (str "sha256:4bb5a2") busybox)
    /\ (if substr0 7 "sha256:4bb5a2" =? "sha256:"
        then lookup "digest" rat' = str "sha256:4bb5a2"
             /\ lookup "tag" rat' = str EmptyString
             /\ forall k, k <> "tag" -> k <> "digest" ->
                          lookup k rat' = lookup k busybox
        else lookup "tag" rat' = str "sha256:4bb5a2"
             /\ forall k, k <> "tag" -> lookup k rat' = lookup k busybox).
Proof.
  apply (imageCreate_tag_parameter lenient reporting pull_by_digest
           busybox "sha256:4bb5a2"); try reflexivity.
  discriminate.
Defined.

Ltac not_nil :=
  first [ discriminate
        | let H := fresh in
          intros H; apply app_eq_nil in H as [_ H]; discriminate H ].

(** The runs that end once. *)
Lemma ends_once_cons e rest :
  rest <> [] -> is_end e = false -> ends_once rest = true ->
  ends_once (e :: rest) = true.
Proof.
  intros N E H. destruct rest as [|e' rest]; [congruence|].
  cbn [ends_once] in *. rewrite E. exact H.
Qed.

Lemma ends_once_nonempty evs : ends_once evs = true -> evs <> [].
Proof. destruct evs; [discriminate|discriminate]. Qed.

Lemma ends_once_app pre evs :
  forallb (fun e => negb (is_end e)) pre = true ->
  ends_once evs = true -> ends_once (pre ++ evs) = true.
Proof.
  intros P H. induction pre as [|e pre IH]; [exact H|].
  cbn [forallb] in P. apply andb_prop in P as [E P].
  apply negb_true_iff in E. cbn [app].
  apply ends_once_cons; [|exact E|exact (IH P)].
  destruct pre; cbn [app]; [apply ends_once_nonempty; exact H|discriminate].
Qed.

Lemma written_no_end (written : list res_event) :
  forallb (fun e => negb (is_end e)) (map Res written) = true.
Proof. induction written; [reflexivity|exact IHwritten]. Qed.

Lemma pushImages_ends_once be req inputs : forall rat idx,
  ends_once (pushImages be req rat idx inputs) = true.
Proof.
  induction inputs as [|img inputs IH]; intros rat idx; [reflexivity|].
  cbn [pushImages]. destruct (nullish _); [reflexivity|].
  destruct (pushImage be img _ _) as [written err].
  apply ends_once_cons; [|reflexivity|].
  - destruct (map Res written); cbn [app];
      [destruct (truthy err); [discriminate|]|discriminate].
    apply ends_once_nonempty, IH.
  - apply ends_once_app; [apply written_no_end|].
    destruct (truthy err); [reflexivity|apply IH].
Qed.

Lemma getImages_no_end ib imgTags : forall found,
  forallb (fun e => negb (is_end e)) (fst (fst (getImages ib imgTags found)))
  = true.
Proof.
  induction imgTags as [|t imgTags IH]; intros found; [reflexivity|].
  cbn [getImages]. destruct (nullish t); [reflexivity|].
  destruct (imgFromConfigDigest ib _) as [err2 img].
  destruct (truthy err2); [reflexivity|].
  specialize (IH (found ++ [img])%list).
  destruct (getImages ib imgTags _) as [[evs found'] e]. exact IH.
Qed.

(** X12.  Every handler of the file ends its run in one way: by a
    single call of [next], after which it does nothing more, or by a
    throw; it never calls [next] twice and never goes silent. *)
Theorem handlers_end_once hp drc be ib req :
  Forall (fun evs => ends_once evs = true) (handler_runs hp drc be ib req).
Proof.
  unfold handler_runs. repeat constructor.
  - unfold imageList. destruct (listImages ib _) as [err images].
    destruct (truthy err); reflexivity.
  - unfold imageCreate. destruct (negb _); [reflexivity|].
    destruct (parseRepoAndRef drc _) as [rat|e];
      [|destruct (nullish e); reflexivity].
    destruct (pull_all req rat) as [[|]|exn]; try reflexivity.
    destruct (apply_tag req rat) as [rat'|exn]; [|reflexivity].
    cbn [app]. do 4 (apply ends_once_cons; [not_nil|reflexivity|]).
    apply ends_once_app; [apply written_no_end|reflexivity].
  - unfold imageInspect. destruct (inspectImage ib _) as [err img].
    destruct (truthy err); reflexivity.
  - unfold imageHistory. destruct (getImageHistory ib _) as [err h].
    destruct (truthy err); reflexivity.
  - unfold imagePush. destruct (negb _); [reflexivity|].
    destruct (parseRepoAndTag drc _) as [rat|e];
      [|destruct (nullish e); reflexivity].
    cbn [app].
    assert (P := pushImages_ends_once be req (images req) rat 0).
    pose proof (ends_once_nonempty _ P).
    do 3 (apply ends_once_cons; [discriminate || assumption|reflexivity|]).
    exact P.
  - unfold imageTag.
    destruct (parseRepoAndTag drc _) as [rat|e];
      [|destruct (nullish e); reflexivity].
    destruct (truthy _); reflexivity.
  - unfold imageDelete. destruct (deleteImage ib _) as [err h].
    destruct (truthy err); reflexivity.
  - unfold imageSearch.
    destruct (parseRepo drc _) as [repo|e];
      [|destruct (nullish e); reflexivity].
    destruct (nullish _); [reflexivity|].
    destruct (search drc _ _) as [err body]. cbn [app].
    destruct (truthy err); [reflexivity|].
    destruct (nullish body); reflexivity.
  - unfold reqImage. destruct (imgFromName ib _) as [err img].
    destruct (truthy err); [reflexivity|].
    destruct (negb (truthy img)); reflexivity.
  - unfold reqImagesAndTags. destruct (tagsFromRepoName ib _) as [err tags].
    destruct (truthy err); [reflexivity|].
    destruct tags as [|t tags]; [reflexivity|].
    pose proof (getImages_no_end ib (t :: tags) []) as G.
    destruct (getImages ib (t :: tags) []) as [[evs found] e].
    cbn [fst] in G.
    destruct e; cbn [fst];
      (apply ends_once_cons;
       [destruct evs; discriminate|reflexivity
       |apply ends_once_app; [exact G|reflexivity]]).
Qed.

Lemma assign_assign k v1 v2 props :
  assign k v2 (assign k v1 props) = assign k v2 props.
Proof.
  induction props as [|[k' v'] props IH]; cbn [assign].
  - rewrite String.eqb_refl. reflexivity.
  - destruct (String.eqb_spec k' k) as [->|N]; cbn [assign].
    + rewrite String.eqb_refl. reflexivity.
    + destruct (String.eqb_spec k' k); [contradiction|]. now rewrite IH.
Qed.

Lemma skipn_cons_nth {A} (d : A) : forall idx l t ts,
  skipn idx l = t :: ts -> nth idx l d = t /\ skipn (S idx) l = ts.
Proof.
  induction idx as [|idx IH]; intros l t ts H.
  - cbn [skipn] in H. subst l. split; reflexivity.
  - destruct l as [|x l]; [discriminate|]. cbn [skipn] in H.
    destruct (IH l t ts H) as [N S']. split; [exact N|exact S'].
Qed.

Lemma pushed_pairs_app evs1 evs2 :
  pushed_pairs (evs1 ++ evs2) = (pushed_pairs evs1 ++ pushed_pairs evs2)%list.
Proof. apply flat_map_app. Qed.

Lemma pushed_pairs_written (written : list res_event) :
  pushed_pairs (map Res written) = [].
Proof. induction written; [reflexivity|exact IHwritten]. Qed.

(** The pipeline of [imagePush]: which pushes it makes, and how it
    ends. *)
Lemma pushImages_pairs be req rat0 : forall inputs idx rat,
  (forall v, assign "tag" v rat = assign "tag" v rat0) ->
  lookup "canonicalName" rat = lookup "canonicalName" rat0 ->
  forallb is_object (skipn idx (imageTags req)) = true ->
  List.length inputs <= List.length (skipn idx (imageTags req)) ->
  pushed_pairs (pushImages be req rat idx inputs) =
    map (fun p => (fst p, get (snd p) "tag"))
        (firstn (attempted be rat0
                   (combine inputs (skipn idx (imageTags req))))
                (combine inputs (skipn idx (imageTags req))))
  /\ exists evs,
       pushImages be req rat idx inputs
       = (evs ++ [Res End_; Next NextOk])%list.
Proof.
  induction inputs as [|img inputs IH]; intros idx rat A C O L.
  - split; [reflexivity|]. exists []. reflexivity.
  - destruct (skipn idx (imageTags req)) as [|t ts] eqn:S';
      [cbn [List.length] in L; lia|].
    destruct (skipn_cons_nth undefined _ _ _ _ S') as [N S''].
    cbn [forallb] in O. apply andb_prop in O as [Ot Ots].
    cbn [pushImages]. rewrite N.
    replace (nullish t) with false by (destruct t; (discriminate || reflexivity)).
    rewrite A, lookup_assign_same, lookup_assign_other by discriminate.
    cbn [combine attempted]. unfold push_result at 1.
    destruct (pushImage be img (assign "tag" (get t "tag") rat0) _)
      as [written err] eqn:P.
    cbn [snd].
    change (Backend "pushImage" ?o :: ?l) with ([Backend "pushImage" o] ++ l)%list.
    rewrite !pushed_pairs_app, pushed_pairs_written.
    cbn [pushed_pairs flat_map app get lookup String.eqb Ascii.eqb Bool.eqb].
    rewrite lookup_assign_same.
    destruct (truthy err).
    + split; [reflexivity|].
      exists (Backend "pushImage"
                (object [("image", img);
                         ("rat", object (assign "tag" (get t "tag") rat0));
                         ("repoAndTag",
                          str (to_string (lookup "canonicalName" rat0) ++ ":"
                               ++ to_string (get t "tag")))])
              :: map Res written)%list.
      reflexivity.
    + destruct (IH (S idx) (assign "tag" (get t "tag") rat0)) as [Pp [evs E]].
      * intros v. apply assign_assign.
      * apply lookup_assign_other. discriminate.
      * rewrite S''. exact Ots.
      * rewrite S''. cbn [List.length] in L. lia.
      * rewrite S'' in Pp. split.
        -- cbn [firstn map fst snd]. f_equal. exact Pp.
        -- rewrite E.
           exists (Backend "pushImage"
                     (object [("image", img);
                              ("rat",
                               object (assign "tag" (get t "tag") rat0));
                              ("repoAndTag",
                               str (to_string (lookup "canonicalName" rat0)
                                    ++ ":" ++ to_string (get t "tag")))])
                   :: map Res written ++ evs)%list.
           rewrite <- app_comm_cons, <- app_assoc. reflexivity.
Qed.

Lemma imagePush_pairs drc be req rat :
  parses Push req = true ->
  parseRepoAndTag drc (lookup "name" (params req)) = Parsed rat ->
  List.length (images req) <= List.length (imageTags req) ->
  pushed_pairs (imagePush drc be req) =
    map (fun p => (fst p, get (snd p) "tag"))
        (firstn (attempted be rat (combine (images req) (imageTags req)))
                (combine (images req) (imageTags req)))
  /\ exists evs,
       imagePush drc be req = (evs ++ [Res End_; Next NextOk])%list.
Proof.
  intros P E L. cbn [parses] in P. unfold imagePush. rewrite P, E.
  cbn [negb]. apply andb_prop in P as [_ Pt].
  destruct (pushImages_pairs be req rat (images req) 0 rat) as [Pp [evs Ee]];
    try (reflexivity || assumption).
  cbn [skipn] in Pp. rewrite pushed_pairs_app. split; [exact Pp|].
  rewrite Ee. eexists. rewrite app_assoc. reflexivity.
Qed.

Lemma combine_append {A B} (l1 l2 : list A) (m1 m2 : list B) :
  List.length l1 = List.length m1 ->
  combine (l1 ++ l2) (m1 ++ m2) = (combine l1 m1 ++ combine l2 m2)%list.
Proof.
  revert m1. induction l1 as [|a l1 IH]; intros [|b m1] H;
    try discriminate; [reflexivity|].
  cbn [app combine]. f_equal. apply IH. now injection H.
Qed.

Lemma attempted_all be rat pairs :
  (forall img t, In (img, t) pairs ->
                 truthy (snd (push_result be rat img t)) = false) ->
  attempted be rat pairs = List.length pairs.
Proof.
  induction pairs as [|[img t] pairs IH]; intros H; [reflexivity|].
  cbn [attempted List.length]. rewrite (H img t (or_introl eq_refl)).
  f_equal. apply IH. intros img' t' I. apply H. right. exact I.
Qed.

Lemma attempted_until be rat pairs img t tail :
  (forall img' t', In (img', t') pairs ->
                   truthy (snd (push_result be rat img' t')) = false) ->
  truthy (snd (push_result be rat img t)) = true ->
  attempted be rat (pairs ++ (img, t) :: tail) = S (List.length pairs).
Proof.
  intros H Hf. induction pairs as [|[i0 t0] pairs IH].
  - cbn [app attempted List.length]. now rewrite Hf.
  - cbn [app attempted List.length]. rewrite (H i0 t0 (or_introl eq_refl)).
    f_equal. apply IH. intros i1 t1 In1. apply H. right. exact In1.
Qed.

(** X13.  When no push fails, [imagePush] pushes every image of
    [req.images], in order, each under the tag that [req.imageTags]
    holds at the same index. *)
Theorem imagePush_in_step drc be req rat :
  parses Push req = true ->
  parseRepoAndTag drc (lookup "name" (params req)) = Parsed rat ->
  List.length (images req) <= List.length (imageTags req) ->
  (forall img t, In (img, t) (combine (images req) (imageTags req)) ->
                 truthy (snd (push_result be rat img t)) = false) ->
  pushed_pairs (imagePush drc be req) =
    map (fun p => (fst p, get (snd p) "tag"))
        (combine (images req) (imageTags req)).
Proof.
  intros P E L H. destruct (imagePush_pairs drc be req rat P E L) as [-> _].
  rewrite (attempted_all be rat _ H), firstn_all. reflexivity.
Qed.

Lemma imagePush_in_step_witness :
  pushed_pairs (imagePush lenient reporting push_two) =
    map (fun p => (fst p, get (snd p) "tag"))
        (combine (images push_two) (imageTags push_two)).
Proof.
  apply (imagePush_in_step lenient reporting push_two busybox).
  - reflexivity.
  - reflexivity.
  - apply le_n.
  - intros img t H. reflexivity.
Defined.

(** X14.  The first push that fails ends the pipeline: the images
    after it are not pushed.  The handler still ends the response and
    calls [next()] without an error. *)
Theorem imagePush_stops_at_failure drc be req rat pre img post tpre t tpost :
  parses Push req = true ->
  parseRepoAndTag drc (lookup "name" (params req)) = Parsed rat ->
  images req = (pre ++ img :: post)%list ->
  imageTags req = (tpre ++ t :: tpost)%list ->
  List.length pre = List.length tpre ->
  List.length post <= List.length tpost ->
  (forall img' t', In (img', t') (combine pre tpre) ->
                   truthy (snd (push_result be rat img' t')) = false) ->
  truthy (snd (push_result be rat img t)) = true ->
  pushed_pairs (imagePush drc be req) =
    map (fun p => (fst p, get (snd p) "tag"))
        (combine (pre ++ [img]) (tpre ++ [t]))
  /\ exists evs,
       imagePush drc be req = (evs ++ [Res End_; Next NextOk])%list.
Proof.
  intros P E I T Lp Lt Hpre Hf.
  destruct (imagePush_pairs drc be req rat P E) as [Pp Ee].
  { rewrite I, T, !length_app. cbn [List.length]. lia. }
  split; [|exact Ee]. rewrite Pp, I, T. f_equal.
  rewrite !combine_append by assumption. cbn [combine].
  rewrite (attempted_until be rat _ img t _ Hpre Hf).
  rewrite <- (Nat.add_1_r (List.length _)), firstn_app_2. reflexivity.
Qed.

Lemma imagePush_stops_at_failure_witness :
  pushed_pairs (imagePush lenient fussy push_three) =
    map (fun p => (fst p, get (snd p) "tag"))
        (combine ([img1] ++ [img1]) ([tag_latest] ++ [tag_v1]))
  /\ exists evs,
       imagePush lenient fussy push_three
       = (evs ++ [Res End_; Next NextOk])%list.
Proof.
  apply (imagePush_stops_at_failure lenient fussy push_three busybox
           [img1] img1 [img1] [tag_latest] tag_v1 [tag_latest]).
  - reflexivity.
  - reflexivity.
  - reflexivity.
  - reflexivity.
  - reflexivity.
  - apply le_n.
  - intros img' t' [H|[]]. injection H as <- <-. reflexivity.
  - reflexivity.
Defined.



(** Chains. *)
Lemma run_app c1 c2 req :
  run (c1 ++ c2) req =
  let '(evs, req', done) := run c1 req in
  if done then
    let '(evs', req'', done') := run c2 req' in
    ((evs ++ evs')%list, req'', done')
  else (evs, req', false).
Proof.
  revert req. induction c1 as [|h c1 IH]; intros req.
  - cbn [app run]. destruct (run c2 req) as [[evs req'] done]. reflexivity.
  - cbn [app run]. destruct (h req) as [evs req1].
    destruct (passes evs); [|reflexivity].
    rewrite IH. destruct (run c1 req1) as [[evs1 req2] [|]];
      [|reflexivity].
    destruct (run c2 req2) as [[evs2 req3] done]. rewrite app_assoc.
    reflexivity.
Qed.

Lemma passes_last evs : passes (evs ++ [Next NextOk]) = true.
Proof.
  induction evs as [|e evs IH]; [reflexivity|].
  cbn [app]. destruct (evs ++ [Next NextOk])%list eqn:E.
  - destruct evs; discriminate.
  - rewrite <- E in *. cbn [passes]. rewrite E, <- E.
    destruct e as [| | | | |[]|]; exact IH.
Qed.

(** X16.  On the history route, when the handlers before [reqImage]
    have passed and the backend knows no image of the name (and reports
    no error), the chain stops at [reqImage] with a
    [ResourceNotFoundError] that names the image: [imageHistory] does
    not run and the backend is not asked for a history. *)
Theorem history_of_unknown_image pl hp drc be ib req evs req' err img :
  run [reqParamsName hp; before pl] req = (evs, req', true) ->
  imgFromName ib (object [("name", lookup "name" (params req'))])
    = (err, img) ->
  truthy err = false ->
  truthy img = false ->
  run (chain pl hp drc be ib ImageHistory) req =
    ((evs ++
      [Backend "imgFromName" (object [("name", lookup "name" (params req'))]);
       Next (NextErr (Images.ResourceNotFoundError
                        ("No such image: "
                         ++ to_string (lookup "name" (params req')))%string))])%list,
     req', false).
Proof.
  intros R I Te Ti. cbn [chain].
  change [reqParamsName hp; before pl; reqImage ib; lift (imageHistory ib)]
    with ([reqParamsName hp; before pl]
          ++ [reqImage ib; lift (imageHistory ib)])%list.
  rewrite run_app, R. cbn [run]. unfold reqImage at 1.
  rewrite I, Te, Ti. reflexivity.
Qed.

Lemma history_of_unknown_image_witness :
  run (chain {| before := lift (fun _ => [Next NextOk]);
                queryParser := lift (fun _ => [Next NextOk]);
                checkApprovedForProvisioning := lift (fun _ => [Next NextOk]);
                reqRegAuth := lift (fun _ => [Next NextOk]) |}
             plain lenient reporting one_image ImageHistory) named =
    (([Next NextOk; Next NextOk] ++
      [Backend "imgFromName" (object [("name", lookup "name" (params named))]);
       Next (NextErr (Images.ResourceNotFoundError
                        ("No such image: "
                         ++ to_string (lookup "name" (params named)))%string))])%list,
     named, false).
Proof.
  apply (history_of_unknown_image
           {| before := lift (fun _ => [Next NextOk]);
              queryParser := lift (fun _ => [Next NextOk]);
              checkApprovedForProvisioning := lift (fun _ => [Next NextOk]);
              reqRegAuth := lift (fun _ => [Next NextOk]) |}
           plain lenient reporting one_image named
           [Next NextOk; Next NextOk] named null undefined); reflexivity.
Defined.

(** The images that [reqImagesAndTags] finds for a list of tags. *)
Lemma getImages_found ib tags : forall found,
  (forall t, In t tags ->
     nullish t = false
     /\ truthy (fst (imgFromConfigDigest ib
                       (object [("config_digest", get t "config_digest")])))
        = false) ->
  exists evs,
    getImages ib tags found =
      (evs,
       (found ++
        map (fun t => snd (imgFromConfigDigest ib
                             (object [("config_digest",
                                       get t "config_digest")]))) tags)%list,
       PipeOk)
    /\ pushed_pairs evs = [].
Proof.
  induction tags as [|t tags IH]; intros found H.
  - exists []. cbn [getImages map]. rewrite app_nil_r. split; reflexivity.
  - destruct (H t (or_introl eq_refl)) as [N E]. cbn [getImages].
    rewrite N.
    destruct (imgFromConfigDigest ib _) as [err2 img] eqn:D.
    cbn [fst] in E. rewrite E.
    destruct (IH (found ++ [img])%list) as (evs & -> & P).
    { intros t' I. apply H. right. exact I. }
    exists (Backend "imgFromConfigDigest"
              (object [("config_digest", get t "config_digest")]) :: evs).
    split; [|exact P]. cbn [map snd]. rewrite D. cbn [snd].
    rewrite <- app_assoc. reflexivity.
Qed.

(** X17.  On the push route, when the handlers before have passed and
    neither the lookups nor the pushes fail, every tag that the backend
    lists for the repository is pushed, in order, together with the
    image found for the config digest of that tag; the request leaves
    the chain with as many images as tags. *)
Theorem push_every_tag pl hp drc be ib req evs req' err tags rat :
  run [reqParamsName hp; before pl; queryParser pl] req = (evs, req', true) ->
  tagsFromRepoName ib (object [("repo", lookup "name" (params req'));
                               ("tag", lookup "tag" (query req'))])
    = (err, tags) ->
  truthy err = false ->
  tags <> [] ->
  (forall t, In t tags ->
     is_object t = true
     /\ truthy (fst (imgFromConfigDigest ib
                       (object [("config_digest", get t "config_digest")])))
        = false
     /\ is_object (snd (imgFromConfigDigest ib
                          (object [("config_digest",
                                    get t "config_digest")]))) = true) ->
  parseRepoAndTag drc (lookup "name" (params req')) = Parsed rat ->
  (forall t, In t tags ->
     truthy (snd (push_result be rat
                    (snd (imgFromConfigDigest ib
                            (object [("config_digest",
                                      get t "config_digest")]))) t))
     = false) ->
  exists evs' req'',
    run (chain pl hp drc be ib ImagePush) req = ((evs ++ evs')%list, req'', true)
    /\ imageTags req'' = tags
    /\ List.length (images req'') = List.length tags
    /\ pushed_pairs evs' =
       map (fun t => (snd (imgFromConfigDigest ib
                             (object [("config_digest",
                                       get t "config_digest")])),
                      get t "tag")) tags.
Proof.
  intros R Tg Te Ne Ht P Hp.
  set (found := fun t => snd (imgFromConfigDigest ib
                                (object [("config_digest",
                                          get t "config_digest")]))) in *.
  cbn [chain].
  change [reqParamsName hp; before pl; queryParser pl; reqImagesAndTags ib;
          lift (imagePush drc be)]
    with ([reqParamsName hp; before pl; queryParser pl]
          ++ [reqImagesAndTags ib; lift (imagePush drc be)])%list.
  rewrite run_app, R. cbn [run]. unfold reqImagesAndTags at 1.
  rewrite Tg, Te.
  destruct (getImages_found ib tags []) as (gevs & G & Gp).
  { intros t I. destruct (Ht t I) as (O & E & _). split; [|exact E].
    destruct t; (discriminate || reflexivity). }
  cbn [app] in G. fold found in G.
  destruct tags as [|t0 tags0] eqn:Tags; [congruence|]. rewrite <- Tags in *.
  rewrite G, !app_comm_cons, passes_last.
  set (req2 := with_images (map found tags) tags req').
  assert (Ps : parses Push req2 = true).
  { cbn [parses req2 with_images images imageTags].
    apply andb_true_intro. split; apply forallb_forall.
    - intros img I. apply in_map_iff in I as (t & <- & I).
      apply (Ht t I).
    - intros t I. apply (Ht t I). }
  assert (Cm : combine (map found tags) tags
               = map (fun t => (found t, t)) tags).
  { clear. induction tags as [|t tags IH]; [reflexivity|].
    cbn [map combine]. now rewrite IH. }
  destruct (imagePush_pairs drc be req2 rat Ps P) as [Pp [pevs Pe]].
  { cbn [req2 with_images images imageTags]. rewrite length_map. apply le_n. }
  cbn [req2 with_images images imageTags] in Pp. rewrite Cm in Pp.
  rewrite attempted_all, firstn_all, map_map in Pp.
  2:{ intros img t I. apply in_map_iff in I as (t' & E & I).
      injection E as <- <-. apply (Hp t' I). }
  cbn [fst snd] in Pp.
  assert (Pa : passes (imagePush drc be req2) = true).
  { rewrite Pe.
    change [Res End_; Next NextOk] with ([Res End_] ++ [Next NextOk])%list.
    rewrite app_assoc. apply passes_last. }
  unfold lift at 1. fold req2. rewrite Pa.
  eexists. exists req2. split; [reflexivity|].
  split; [reflexivity|]. split; [apply length_map|].
  rewrite app_nil_r, !pushed_pairs_app, Pp.
  change (Backend "tagsFromRepoName" ?o :: gevs)
    with ([Backend "tagsFromRepoName" o] ++ gevs)%list.
  rewrite pushed_pairs_app, Gp. reflexivity.
Qed.

Lemma push_every_tag_witness :
  exists evs' req'',
    run (chain {| before := lift (fun _ => [Next NextOk]);
                  queryParser := lift (fun _ => [Next NextOk]);
                  checkApprovedForProvisioning :=
                    lift (fun _ => [Next NextOk]);
                  reqRegAuth := lift (fun _ => [Next NextOk]) |}
               plain lenient reporting one_image ImagePush) named
    = (([Next NextOk; Next NextOk; Next NextOk] ++ evs')%list, req'', true)
    /\ imageTags req'' = [tag_latest; tag_v1]
    /\ List.length (images req'') = List.length [tag_latest; tag_v1]
    /\ pushed_pairs evs' =
       map (fun t => (snd (imgFromConfigDigest one_image
                             (object [("config_digest",
                                       get t "config_digest")])),
                      get t "tag")) [tag_latest; tag_v1].
Proof.
  apply (push_every_tag
           {| before := lift (fun _ => [Next NextOk]);
              queryParser := lift (fun _ => [Next NextOk]);
              checkApprovedForProvisioning := lift (fun _ => [Next NextOk]);
              reqRegAuth := lift (fun _ => [Next NextOk]) |}
           plain lenient reporting one_image named
           [Next NextOk; Next NextOk; Next NextOk] named null
           [tag_latest; tag_v1] busybox).
  - reflexivity.
  - reflexivity.
  - reflexivity.
  - discriminate.
  - intros t [<-|[<-|[]]]; repeat split.
  - reflexivity.
  - intros t [<-|[<-|[]]]; reflexivity.
Defined.

(* ================================================================= *)
(** ** References that do not parse *)

(** C8, amended.  On each endpoint that parses a reference, a reference
    that fails to parse makes the operation fail with an error wrapping
    the parse error: a [ValidationError] on search, a [DockerError] on
    create, push and tag.  The handler calls [next] with it, and the
    chain of the route, once the handlers before it have passed, ends
    there. *)
Theorem malformed_reference ep drc be req e :
  parses ep req = true ->
  parser ep drc (reference ep req) = ParseError e ->
  nullish e = false ->
  handle ep drc be req =
    (match ep with
     | Create => [ConnSetTimeout 150000]
     | Push | Tag | Search => []
     end
     ++ [Next (NextErr
                 match ep with
                 | Search => ValidationError e (get e "message")
                 | Create => DockerError e (str (to_string e))
                 | Push | Tag => DockerError e (get e "message")
                 end)])%list
  /\ forall pl hp ib req0 evs,
       run (removelast (chain pl hp drc be ib (route_of ep))) req0
         = (evs, req, true) ->
       run (chain pl hp drc be ib (route_of ep)) req0 =
         ((evs
           ++ match ep with
              | Create => [ConnSetTimeout 150000]
              | Push | Tag | Search => []
              end
           ++ [Next (NextErr
                       match ep with
                       | Search => ValidationError e (get e "message")
                       | Create => DockerError e (str (to_string e))
                       | Push | Tag => DockerError e (get e "message")
                       end)])%list,
          req, false).
Proof.
  intros P E N.
  assert (H : handle ep drc be req =
    (match ep with
     | Create => [ConnSetTimeout 150000]
     | Push | Tag | Search => []
     end
     ++ [Next (NextErr
                 match ep with
                 | Search => ValidationError e (get e "message")
                 | Create => DockerError e (str (to_string e))
                 | Push | Tag => DockerError e (get e "message")
                 end)])%list).
  { destruct ep; cbn [handle parses parser reference] in *.
    - unfold imageCreate. rewrite P, E, N. reflexivity.
    - unfold imagePush. rewrite P, E, N. reflexivity.
    - unfold imageTag. rewrite E, N. reflexivity.
    - unfold imageSearch. rewrite E, N. reflexivity. }
  split; [exact H|]. intros pl hp ib req0 evs R.
  assert (C : chain pl hp drc be ib (route_of ep) =
              (removelast (chain pl hp drc be ib (route_of ep))
               ++ [lift (handle ep drc be)])%list)
    by (destruct ep; reflexivity).
  rewrite C, run_app, R. cbn [run lift]. rewrite H.
  destruct ep; reflexivity.
Qed.

Lemma malformed_reference_witness :
  handle Create strict reporting pull_nothing =
    [ConnSetTimeout 150000;
     Next (NextErr
             (DockerError
                no_string
                (str "TypeError: Cannot read property 'indexOf' of undefined")))]
  /\ forall pl hp ib req0 evs,
       run (removelast (chain pl hp strict reporting ib ImageCreate)) req0
         = (evs, pull_nothing, true) ->
       run (chain pl hp strict reporting ib ImageCreate) req0 =
         ((evs
           ++ [ConnSetTimeout 150000]
           ++ [Next (NextErr
                       (DockerError
                          no_string
                          (str "TypeError: Cannot read property 'indexOf' of undefined")))])%list,
          pull_nothing, false).
Proof.
  apply (malformed_reference Create strict reporting pull_nothing no_string);
    reflexivity.
Defined.

(* ================================================================= *)
(** ** The paths of the routes *)

Import Routes.

Lemma strip_spec l : forall s s', strip l s = Some s' <-> s = l ++ s'.
Proof.
  induction l as [|a l IH]; intros s s'; cbn [strip append].
  - split; [intros H; now injection H|intros ->; reflexivity].
  - destruct s as [|b s]; [split; discriminate|].
    destruct (Ascii.eqb_spec a b) as [->|N].
    + rewrite IH. split; [intros ->; reflexivity|intros H; now injection H].
    + split; [discriminate|]. intros H. injection H. intros. congruence.
Qed.

Lemma strip_app l s : strip l (l ++ s) = Some s.
Proof. apply strip_spec. reflexivity. Qed.

Lemma length_append a b :
  String.length (a ++ b) = String.length a + String.length b.
Proof. induction a as [|c a IH]; [reflexivity|]. cbn. now rewrite IH. Qed.

Lemma append_assoc a b c : (a ++ b) ++ c = a ++ (b ++ c).
Proof. induction a as [|x a IH]; [reflexivity|]. cbn. now rewrite IH. Qed.

Lemma append_nil_r a : a ++ EmptyString = a.
Proof. induction a as [|x a IH]; [reflexivity|]. cbn. now rewrite IH. Qed.

Lemma substring_prefix a : forall b,
  substring 0 (String.length a) (a ++ b) = a.
Proof.
  induction a as [|c a IH]; intros b.
  - destruct b; reflexivity.
  - cbn. now rewrite IH.
Qed.

Lemma consumed_app a b : consumed (a ++ b) b = a.
Proof.
  unfold consumed. rewrite length_append.
  replace (String.length a + String.length b - String.length b)
    with (String.length a) by lia.
  apply substring_prefix.
Qed.

Lemma all_in_app cl a b :
  all_in cl (a ++ b) = all_in cl a && all_in cl b.
Proof.
  induction a as [|c a IH]; [reflexivity|].
  cbn [append all_in]. rewrite IH. apply andb_assoc.
Qed.

Section Repeats.
Context {R : Type}.
Variable cl : class.
Variable min : nat.
Variable k : string -> option R.

(** A repeat that matches has read a taken of the class and left the
    rest to what follows. *)
Lemma many_greedy_sound : forall s n res,
  many_greedy cl min k s n = Some res ->
  exists taken rest,
    s = taken ++ rest /\ all_in cl taken = true
    /\ min <= n + String.length taken /\ k rest = Some res.
Proof.
  induction s as [|c s IH]; intros n res H; cbn [many_greedy] in H.
  - destruct (Nat.leb_spec min n); [|discriminate].
    exists EmptyString, EmptyString. cbn. repeat split; [lia|exact H].
  - assert (Stop : (if (min <=? n)%nat then k (String c s) else None)
                   = Some res ->
                   exists taken rest,
                     String c s = taken ++ rest /\ all_in cl taken = true
                     /\ min <= n + String.length taken /\ k rest = Some res).
    { intros E. destruct (Nat.leb_spec min n); [|discriminate].
      exists EmptyString, (String c s). cbn. repeat split; [lia|exact E]. }
    destruct (in_class cl c) eqn:C; [|exact (Stop H)].
    destruct (many_greedy cl min k s (S n)) as [r|] eqn:G; [|exact (Stop H)].
    injection H as <-.
    destruct (IH _ _ G) as (taken & rest & -> & A & L & K).
    exists (String c taken), rest. cbn. rewrite C, A.
    repeat split; [lia|exact K].
Qed.

Lemma many_lazy_sound : forall s n res,
  many_lazy cl min k s n = Some res ->
  exists taken rest,
    s = taken ++ rest /\ all_in cl taken = true
    /\ min <= n + String.length taken /\ k rest = Some res.
Proof.
  induction s as [|c s IH]; intros n res H; cbn [many_lazy] in H.
  - destruct (Nat.leb_spec min n); [|discriminate].
    destruct (k EmptyString) eqn:K; [|discriminate]. injection H as <-.
    exists EmptyString, EmptyString. cbn. repeat split; [lia|exact K].
  - assert (More : (if in_class cl c then many_lazy cl min k s (S n)
                    else None) = Some res ->
                   exists taken rest,
                     String c s = taken ++ rest /\ all_in cl taken = true
                     /\ min <= n + String.length taken /\ k rest = Some res).
    { intros E. destruct (in_class cl c) eqn:C; [|discriminate].
      destruct (IH _ _ E) as (taken & rest & -> & A & L & K).
      exists (String c taken), rest. cbn. rewrite C, A.
      repeat split; [lia|exact K]. }
    destruct (Nat.leb_spec min n); [|exact (More H)].
    destruct (k (String c s)) eqn:K; [|exact (More H)]. injection H as <-.
    exists EmptyString, (String c s). cbn. repeat split; [lia|exact K].
Qed.

(** The greedy repeat reads a whole taken, if what follows matches
    after it. *)
Lemma many_greedy_run : forall taken rest n res,
  all_in cl taken = true ->
  match rest with
  | EmptyString => True
  | String c _ => in_class cl c = false
  end ->
  min <= n + String.length taken ->
  k rest = Some res ->
  many_greedy cl min k (taken ++ rest) n = Some res.
Proof.
  induction taken as [|c taken IH]; intros rest n res A S' L K.
  - cbn [append]. cbn in L.
    destruct rest as [|c rest]; cbn [many_greedy].
    + destruct (Nat.leb_spec min n); [exact K|lia].
    + rewrite S'. destruct (Nat.leb_spec min n); [exact K|lia].
  - cbn [append many_greedy]. cbn [all_in] in A.
    apply andb_prop in A as [C A]. rewrite C.
    rewrite (IH rest (S n) res A S'); [reflexivity| |exact K].
    cbn [String.length] in L. lia.
Qed.

(** The lazy repeat reads up to the first place where what follows
    matches. *)
Lemma many_lazy_run : forall taken rest n res,
  all_in cl taken = true ->
  min <= n ->
  k rest = Some res ->
  (forall a b, taken = a ++ b -> b <> EmptyString -> k (b ++ rest) = None) ->
  many_lazy cl min k (taken ++ rest) n = Some res.
Proof.
  induction taken as [|c taken IH]; intros rest n res A L K F.
  - cbn [append].
    destruct rest as [|c rest]; cbn [many_lazy];
      (destruct (Nat.leb_spec min n); [|lia]); rewrite K; reflexivity.
  - cbn [append many_lazy]. cbn [all_in] in A.
    apply andb_prop in A as [C A]. rewrite C.
    destruct (Nat.leb_spec min n); [|lia].
    assert (F0 := F EmptyString (String c taken) eq_refl
                    ltac:(discriminate)).
    cbn [append] in F0. rewrite F0.
    apply IH; [exact A|lia|exact K|].
    intros a b E Nb. apply (F (String c a) b); [rewrite E; reflexivity|exact Nb].
Qed.

End Repeats.

Lemma is_version_some text :
  is_version (Some text) = true <->
  exists v, text = "/v" ++ v /\ v <> EmptyString
            /\ all_in (Not "/") v = true.
Proof.
  cbn [is_version]. split.
  - destruct (strip "/v" text) as [v|] eqn:S'; [|discriminate].
    intros H. apply andb_prop in H as [N A]. exists v.
    apply strip_spec in S'. repeat split; [exact S'| |exact A].
    intros ->. discriminate.
  - intros (v & -> & N & A). rewrite strip_app, A.
    destruct (String.eqb_spec v EmptyString); [contradiction|reflexivity].
Qed.

(** The optional version in front of a path. *)
Lemma version_sound s caps k res :
  matching version s caps k = Some res ->
  exists ver rest,
    is_version ver = true /\ s = version_text ver ++ rest
    /\ k rest (caps ++ [ver])%list = Some res.
Proof.
  unfold version. cbn [matching groups repeat Nat.add].
  destruct (strip "/v" s) as [s1|] eqn:S'.
  - destruct (many_greedy (Not "/") 1 _ s1 0) as [r|] eqn:G.
    + intros H. injection H as <-.
      apply many_greedy_sound in G as (v & rest & -> & A & L & K).
      apply strip_spec in S'. subst s.
      rewrite <- append_assoc, consumed_app in K.
      exists (Some ("/v" ++ v)), rest. split; [|split].
      * apply is_version_some. exists v. repeat split; [|exact A].
        intros ->. cbn in L. lia.
      * cbn [version_text]. symmetry. apply append_assoc.
      * exact K.
    + intros H. exists None, s. repeat split. exact H.
  - intros H. exists None, s. repeat split. exact H.
Qed.

Lemma version_complete ver rest' caps k res :
  is_version ver = true ->
  k (String "/" (String "i" rest')) (caps ++ [ver])%list = Some res ->
  matching version (version_text ver ++ String "/" (String "i" rest')) caps k
  = Some res.
Proof.
  intros V K. unfold version. cbn [matching groups repeat Nat.add].
  destruct ver as [text|]; cbn [version_text].
  - apply is_version_some in V as (v & -> & N & A).
    rewrite append_assoc, strip_app.
    rewrite (many_greedy_run (Not "/") 1 _ v _ 0 res A); [reflexivity|..].
    + reflexivity.
    + destruct v; [congruence|cbn; lia].
    + rewrite <- append_assoc, consumed_app. exact K.
  - cbn [append strip Ascii.eqb Bool.eqb]. exact K.
Qed.

(** The paths of the routes with a name, in one form. *)
Lemma named_path r p :
  has_name r = true ->
  exec (path r) p =
  matching version p []
    (fun s1 c1 =>
       match strip "/images/" s1 with
       | Some s2 =>
           many_lazy Any 0
             (fun s3 =>
                match strip (tail r) s3 with
                | Some EmptyString =>
                    Some (c1 ++ [Some (consumed s2 s3)])%list
                | _ => None
                end) s2 0
       | None => None
       end).
Proof. destruct r; (discriminate || reflexivity). Qed.

Lemma plain_path r p :
  has_name r = false ->
  exec (path r) p =
  matching version p []
    (fun s1 c1 =>
       match strip (tail r) s1 with
       | Some EmptyString => Some c1
       | _ => None
       end).
Proof. destruct r; (discriminate || reflexivity). Qed.

Lemma tail_plain r :
  has_name r = false ->
  exists rest', tail r = String "/" (String "i" rest').
Proof. destruct r; intros H; (discriminate H || (eexists; reflexivity)). Qed.

Lemma named_route_shape r p caps :
  has_name r = true ->
  exec (path r) p = Some caps <->
  exists ver name,
    caps = [ver; Some name]
    /\ is_version ver = true
    /\ all_in Any name = true
    /\ p = version_text ver ++ "/images/" ++ name ++ tail r.
Proof.
  intros H. rewrite (named_path r p H). split.
  - intros M. apply version_sound in M as (ver & rest & V & -> & K).
    destruct (strip "/images/" rest) as [s2|] eqn:S2; [|discriminate].
    apply strip_spec in S2. subst rest.
    apply many_lazy_sound in K as (name & s3 & -> & A & _ & K).
    destruct (strip (tail r) s3) as [[|c s4]|] eqn:S3; try discriminate.
    apply strip_spec in S3. rewrite append_nil_r in S3. subst s3.
    rewrite consumed_app in K. injection K as <-.
    exists ver, name. repeat split; assumption.
  - intros (ver & name & -> & V & A & ->).
    assert (E' : "/images/" ++ name ++ tail r
                 = String "/" (String "i" (substring 2 6 "/images/"
                                             ++ name ++ tail r)))
      by reflexivity.
    rewrite E'. apply version_complete; [exact V|]. rewrite <- E'.
    rewrite strip_app.
    rewrite (many_lazy_run Any 0 _ name (tail r) 0 [ver; Some name] A);
      [reflexivity|apply le_n| |].
    + rewrite (proj2 (strip_spec _ _ EmptyString)) by
        (symmetry; apply append_nil_r).
      rewrite consumed_app. reflexivity.
    + intros a b _ Nb.
      destruct (strip (tail r) (b ++ tail r)) as [[|c s4]|] eqn:S3;
        try reflexivity.
      apply strip_spec in S3. apply (f_equal String.length) in S3.
      rewrite !length_append in S3. cbn in S3.
      destruct b; [congruence|cbn in S3; lia].
Qed.

(** X18.  A path is taken by a route with a name exactly when it is an
    optional version ([/v] and then characters other than a slash),
    [/images/], a name free of line breaks and the suffix of the route.
    The name captured is all that stands between [/images/] and that
    last suffix, slashes and earlier copies of the suffix included. *)
Theorem named_route_paths r p caps :
  has_name r = true ->
  exec (path r) p = Some caps <->
  exists ver name,
    caps = [ver; Some name]
    /\ is_version ver = true
    /\ all_in Any name = true
    /\ p = version_text ver ++ "/images/" ++ name ++ tail r.
Proof. exact (named_route_shape r p caps). Qed.

Lemma named_route_paths_witness :
  exec (path ImageInspect) "/v1.24/images/library/busybox/json"
    = Some [Some "/v1.24"; Some "library/busybox"] <->
  exists ver name,
    [Some "/v1.24"; Some "library/busybox"] = [ver; Some name]
    /\ is_version ver = true
    /\ all_in Any name = true
    /\ "/v1.24/images/library/busybox/json"
       = version_text ver ++ "/images/" ++ name ++ tail ImageInspect.
Proof.
  apply (named_route_paths ImageInspect "/v1.24/images/library/busybox/json"
           [Some "/v1.24"; Some "library/busybox"]).
  reflexivity.
Defined.

Lemma plain_route_shape r p caps :
  has_name r = false ->
  exec (path r) p = Some caps <->
  exists ver,
    caps = [ver] /\ is_version ver = true /\ p = version_text ver ++ tail r.
Proof.
  intros H. rewrite (plain_path r p H). split.
  - intros M. apply version_sound in M as (ver & rest & V & -> & K).
    destruct (strip (tail r) rest) as [[|c s4]|] eqn:S3; try discriminate.
    apply strip_spec in S3. rewrite append_nil_r in S3. subst rest.
    injection K as <-. exists ver. repeat split. exact V.
  - intros (ver & -> & V & ->).
    destruct (tail_plain r H) as (rest' & E). rewrite E.
    apply version_complete; [exact V|]. rewrite <- E.
    rewrite (proj2 (strip_spec _ _ EmptyString)) by
      (symmetry; apply append_nil_r).
    reflexivity.
Qed.

(** X19.  A path is taken by the list, create or search route exactly
    when it is an optional version followed by the literal path of the
    route; nothing may follow. *)
Theorem plain_route_paths r p caps :
  has_name r = false ->
  exec (path r) p = Some caps <->
  exists ver,
    caps = [ver] /\ is_version ver = true /\ p = version_text ver ++ tail r.
Proof. exact (plain_route_shape r p caps). Qed.

Lemma plain_route_paths_witness :
  exec (path ImageSearch) "/images/search" = Some [None] <->
  exists ver,
    [None] = [ver] /\ is_version ver = true
    /\ "/images/search" = version_text ver ++ tail ImageSearch.
Proof.
  apply (plain_route_paths ImageSearch "/images/search" [None]).
  reflexivity.
Defined.

Lemma reverse_app a b : reverse (a ++ b) = reverse b ++ reverse a.
Proof.
  induction a as [|c a IH]; cbn [append reverse].
  - symmetry. apply append_nil_r.
  - rewrite IH. apply append_assoc.
Qed.

Lemma slash_free_split v1 : forall v2 r1 r2,
  all_in (Not "/") v1 = true -> all_in (Not "/") v2 = true ->
  v1 ++ String "/" r1 = v2 ++ String "/" r2 ->
  v1 = v2 /\ r1 = r2.
Proof.
  induction v1 as [|c v1 IH]; intros [|d v2] r1 r2 A1 A2 E;
    cbn [append all_in in_class] in *.
  - injection E as <-. split; reflexivity.
  - injection E as <- _. rewrite Ascii.eqb_refl in A2. discriminate.
  - injection E as -> _. rewrite Ascii.eqb_refl in A1. discriminate.
  - injection E as -> E. apply andb_prop in A1 as [_ A1].
    apply andb_prop in A2 as [_ A2].
    destruct (IH v2 r1 r2 A1 A2 E) as [-> ->]. split; reflexivity.
Qed.

Lemma version_split ver1 ver2 x1 x2 :
  is_version ver1 = true -> is_version ver2 = true ->
  version_text ver1 ++ "/images/" ++ x1
  = version_text ver2 ++ "/images/" ++ x2 ->
  ver1 = ver2 /\ x1 = x2.
Proof.
  intros V1 V2 E. destruct ver1 as [t1|], ver2 as [t2|]; cbn [version_text] in E.
  - apply is_version_some in V1 as (v1 & -> & _ & A1).
    apply is_version_some in V2 as (v2 & -> & _ & A2).
    rewrite !append_assoc in E. cbn [append] in E. injection E as E.
    destruct (slash_free_split v1 v2 _ _ A1 A2 E) as [-> E'].
    injection E' as <-. split; reflexivity.
  - apply is_version_some in V1 as (v1 & -> & _ & _).
    cbn [append] in E. discriminate E.
  - apply is_version_some in V2 as (v2 & -> & _ & _).
    cbn [append] in E. discriminate E.
  - cbn [append] in E. injection E as <-. split; reflexivity.
Qed.

(** What stands after [/images/] in a path that a route takes, read
    from its end. *)
Lemma route_ending r p caps :
  exec (path r) p = Some caps ->
  exists ver x,
    is_version ver = true
    /\ p = version_text ver ++ "/images/" ++ x
    /\ if has_name r
       then exists name, reverse x = reverse (tail r) ++ reverse name
       else "/images/" ++ x = tail r.
Proof.
  intros M. destruct (has_name r) eqn:H.
  - apply (named_route_shape r p caps H) in M
      as (ver & name & _ & V & _ & ->).
    exists ver, (name ++ tail r). repeat split; [exact V|].
    exists name. apply reverse_app.
  - apply (plain_route_shape r p caps H) in M as (ver & _ & V & ->).
    destruct r; try discriminate H; eexists ver, _;
      (split; [exact V|split; reflexivity]).
Qed.

(** X20.  No path is taken by two routes of the same method: which
    handlers run for a request does not depend on the order in which
    the routes were registered. *)
Theorem routes_disjoint r1 r2 p caps1 caps2 :
  verb r1 = verb r2 ->
  exec (path r1) p = Some caps1 ->
  exec (path r2) p = Some caps2 ->
  r1 = r2.
Proof.
  intros Hv M1 M2.
  apply route_ending in M1 as (ver1 & x1 & V1 & -> & E1).
  apply route_ending in M2 as (ver2 & x2 & V2 & P & E2).
  destruct (version_split _ _ _ _ V1 V2 P) as [_ ->]. clear P V1 V2.
  destruct r1, r2; try reflexivity; try discriminate Hv;
    cbn [has_name tail] in E1, E2;
    repeat match goal with
           | H : exists _, _ |- _ => destruct H as [? H]
           | H : "/images/" ++ _ = _ |- _ =>
               cbn [append] in H; injection H as H; subst
           end;
    cbn [reverse append] in *; congruence.
Qed.

Lemma routes_disjoint_witness : ImageInspect = ImageInspect.
Proof.
  apply (routes_disjoint ImageInspect ImageInspect "/images/a/b/json"
           [None; Some "a/b"] [None; Some "a/b"]); reflexivity.
Defined.

(* ================================================================= *)
(** ** The route that is missing *)

(** C9.  [register] puts [imageGet] and [imageLoad] on a route, and not
    [imageChanges]: a path that ends in [/changes] is taken by no route
    but that of [DELETE /images/:name], whose name it is then part of.
    A [GET] of the changes of an image reaches no handler of the file,
    and so not the [NotImplementedError] of [imageChanges]. *)
Theorem image_changes_unrouted q r caps :
  exec (path r) (q ++ "/changes") = Some caps ->
  r = ImageDelete.
Proof.
  intros M. destruct (has_name r) eqn:H.
  - apply (named_route_shape r _ caps H) in M
      as (ver & name & _ & _ & _ & E).
    apply (f_equal reverse) in E. rewrite !reverse_app in E.
    destruct r; try discriminate H; try reflexivity;
      cbn [tail reverse append] in E; discriminate E.
  - apply (plain_route_shape r _ caps H) in M as (ver & _ & _ & E).
    apply (f_equal reverse) in E. rewrite !reverse_app in E.
    destruct r; try discriminate H;
      cbn [tail reverse append] in E; discriminate E.
Qed.

Lemma image_changes_unrouted_witness : ImageDelete = ImageDelete.
Proof.
  apply (image_changes_unrouted "/v1.24/images/busybox" ImageDelete
           [Some "/v1.24"; Some "busybox/changes"]).
  reflexivity.
Defined.

(* ================================================================= *)
(** ** Identifiers and checks *)

Import Service.

Lemma remove_dashes_app a b :
  remove_dashes (a ++ b) = remove_dashes a ++ remove_dashes b.
Proof.
  induction a as [|c a IH]; [reflexivity|]. cbn [append remove_dashes].
  destruct (Ascii.eqb c "-"); cbn [append]; now rewrite IH.
Qed.

Lemma remove_dashes_hex g :
  all_in (OneOf "0123456789abcdef") g = true -> remove_dashes g = g.
Proof.
  induction g as [|c g IH]; [reflexivity|]. cbn [all_in remove_dashes].
  intros H. apply andb_prop in H as [C A]. rewrite (IH A).
  destruct (Ascii.eqb_spec c "-") as [->|]; [discriminate C|reflexivity].
Qed.

(** X21.  From two UUIDs in their usual text, [generateDockerId] makes
    an identifier of 64 hexadecimal digits: the digits of the first UUID
    and then those of the second, without the dashes. *)
Theorem generateDockerId_digits g1 g2 g3 g4 g5 h1 h2 h3 h4 h5 :
  hex_digits 8 g1 = true -> hex_digits 4 g2 = true ->
  hex_digits 4 g3 = true -> hex_digits 4 g4 = true ->
  hex_digits 12 g5 = true ->
  hex_digits 8 h1 = true -> hex_digits 4 h2 = true ->
  hex_digits 4 h3 = true -> hex_digits 4 h4 = true ->
  hex_digits 12 h5 = true ->
  generateDockerId (uuid_text g1 g2 g3 g4 g5) (uuid_text h1 h2 h3 h4 h5)
    = g1 ++ g2 ++ g3 ++ g4 ++ g5 ++ h1 ++ h2 ++ h3 ++ h4 ++ h5
  /\ hex_digits 64
       (generateDockerId (uuid_text g1 g2 g3 g4 g5)
                         (uuid_text h1 h2 h3 h4 h5)) = true.
Proof.
  unfold hex_digits. intros G1 G2 G3 G4 G5 H1 H2 H3 H4 H5.
  apply andb_prop in G1 as [Lg1 Ag1], G2 as [Lg2 Ag2], G3 as [Lg3 Ag3],
    G4 as [Lg4 Ag4], G5 as [Lg5 Ag5], H1 as [Lh1 Ah1], H2 as [Lh2 Ah2],
    H3 as [Lh3 Ah3], H4 as [Lh4 Ah4], H5 as [Lh5 Ah5].
  apply Nat.eqb_eq in Lg1, Lg2, Lg3, Lg4, Lg5, Lh1, Lh2, Lh3, Lh4, Lh5.
  assert (E : generateDockerId (uuid_text g1 g2 g3 g4 g5)
                               (uuid_text h1 h2 h3 h4 h5)
              = g1 ++ g2 ++ g3 ++ g4 ++ g5 ++ h1 ++ h2 ++ h3 ++ h4 ++ h5).
  { unfold generateDockerId, uuid_text.
    rewrite !remove_dashes_app.
    rewrite (remove_dashes_hex g1 Ag1), (remove_dashes_hex g2 Ag2),
      (remove_dashes_hex g3 Ag3), (remove_dashes_hex g4 Ag4),
      (remove_dashes_hex g5 Ag5), (remove_dashes_hex h1 Ah1),
      (remove_dashes_hex h2 Ah2), (remove_dashes_hex h3 Ah3),
      (remove_dashes_hex h4 Ah4), (remove_dashes_hex h5 Ah5).
    cbn [remove_dashes Ascii.eqb Bool.eqb append].
    rewrite !append_assoc. reflexivity. }
  split; [exact E|]. rewrite E, !all_in_app, !length_append.
  rewrite Ag1, Ag2, Ag3, Ag4, Ag5, Ah1, Ah2, Ah3, Ah4, Ah5.
  rewrite Lg1, Lg2, Lg3, Lg4, Lg5, Lh1, Lh2, Lh3, Lh4, Lh5.
  reflexivity.
Qed.

Lemma generateDockerId_digits_witness :
  generateDockerId
    (uuid_text "a1fb11c0" "5f91" "11e4" "92c7" "3755959764aa")
    (uuid_text "0b4c4f5e" "7d3a" "4c1b" "9e2f" "6a8d0c1e2b3f")
    = "a1fb11c0" ++ "5f91" ++ "11e4" ++ "92c7" ++ "3755959764aa"
      ++ "0b4c4f5e" ++ "7d3a" ++ "4c1b" ++ "9e2f" ++ "6a8d0c1e2b3f"
  /\ hex_digits 64
       (generateDockerId
          (uuid_text "a1fb11c0" "5f91" "11e4" "92c7" "3755959764aa")
          (uuid_text "0b4c4f5e" "7d3a" "4c1b" "9e2f" "6a8d0c1e2b3f")) = true.
Proof.
  apply (generateDockerId_digits
           "a1fb11c0" "5f91" "11e4" "92c7" "3755959764aa"
           "0b4c4f5e" "7d3a" "4c1b" "9e2f" "6a8d0c1e2b3f"); reflexivity.
Defined.

Lemma version_pattern_spec s :
  (exists caps, exec version_pattern s = Some caps) <->
  exists digits, s = "v" ++ digits /\ digits <> EmptyString
                 /\ all_in (OneOf "0123456789.") digits = true.
Proof.
  unfold exec, version_pattern. cbn [matching]. split.
  - intros [caps M].
    destruct (strip "v" s) as [s1|] eqn:S'; [|discriminate].
    apply strip_spec in S'. subst s.
    apply many_greedy_sound in M as (digits & rest & -> & A & L & K).
    destruct rest; [|discriminate]. rewrite append_nil_r.
    exists digits. repeat split; [|exact A]. intros ->. cbn in L. lia.
  - intros (digits & -> & N & A). exists []. rewrite strip_app.
    rewrite <- (append_nil_r digits).
    apply many_greedy_run; [exact A|exact I| |reflexivity].
    destruct digits; [congruence|cbn; lia].
Qed.

(** X22.  [checkApiVersion] lets a request with a version string pass
    in two cases only: its route is one of the three that need no
    version, or the version is [v] followed by digits and dots, at least
    one, that read as a number of at least 1.15. *)
Theorem checkApiVersion_passes nm route_name s :
  checkApiVersion nm route_name (str s) = Pass <->
  In route_name versionless
  \/ exists digits, s = "v" ++ digits /\ digits <> EmptyString
                    /\ all_in (OneOf "0123456789.") digits = true
                    /\ at_least_1_15 nm digits = true.
Proof.
  unfold checkApiVersion.
  destruct (existsb (String.eqb route_name) versionless) eqn:X.
  - split; [intros _|reflexivity]. left.
    apply existsb_exists in X as (x & I & E).
    apply String.eqb_eq in E. subst x. exact I.
  - assert (NI : ~ In route_name versionless).
    { intros I. assert (existsb (String.eqb route_name) versionless = true).
      { apply existsb_exists. exists route_name. split; [exact I|].
        apply String.eqb_refl. }
      congruence. }
    cbn [truthy]. destruct (String.eqb_spec s EmptyString) as [->|Ns];
      cbn [negb].
    + split; [discriminate|]. intros [I|(d & E & _)]; [contradiction|].
      discriminate E.
    + destruct (exec version_pattern s) as [caps|] eqn:M.
      * destruct (proj1 (version_pattern_spec s) (ex_intro _ caps M))
          as (digits & -> & Nd & A).
        cbn [append slice1].
        destruct (at_least_1_15 nm digits) eqn:V.
        -- split; [intros _|reflexivity]. right. exists digits.
           repeat split; assumption.
        -- split; [discriminate|].
           intros [I|(d & E & _ & _ & V')]; [contradiction|].
           cbn [append] in E. injection E as <-. congruence.
      * split; [discriminate|].
        intros [I|(d & E & Nd & A & _)]; [contradiction|].
        destruct (proj2 (version_pattern_spec s)) as [caps M'].
        { exists d. repeat split; assumption. }
        congruence.
Qed.

(** X23.  A version string that is not [v] followed by digits and dots
    is turned down on every route that needs a version, with a message
    that quotes the string as the client sent it. *)
Theorem checkApiVersion_malformed nm route_name s :
  ~ In route_name versionless ->
  s <> EmptyString ->
  (forall digits, s = "v" ++ digits ->
                  all_in (OneOf "0123456789.") digits = true ->
                  digits = EmptyString) ->
  checkApiVersion nm route_name (str s) =
    Stop (InvalidVersionError
            ("client and server don't have same version (client : " ++ s
             ++ ", server: 1.16)")).
Proof.
  intros NI Ns H. unfold checkApiVersion.
  destruct (existsb (String.eqb route_name) versionless) eqn:X.
  - apply existsb_exists in X as (x & I & E).
    apply String.eqb_eq in E. subst x. contradiction.
  - cbn [truthy]. destruct (String.eqb_spec s EmptyString); [contradiction|].
    cbn [negb]. destruct (exec version_pattern s) as [caps|] eqn:M.
    + destruct (proj1 (version_pattern_spec s) (ex_intro _ caps M))
        as (digits & E & Nd & A).
      destruct (Nd (H digits E A)).
    + reflexivity.
Qed.

Lemma checkApiVersion_malformed_witness :
  checkApiVersion {| at_least_1_15 := fun _ => true;
                     number_text := fun s => s |} "ImageList" (str "1.24") =
    Stop (InvalidVersionError
            ("client and server don't have same version (client : " ++ "1.24"
             ++ ", server: 1.16)")).
Proof.
  apply (checkApiVersion_malformed
           {| at_least_1_15 := fun _ => true; number_text := fun s => s |}
           "ImageList" "1.24").
  - cbn. intros [H|[H|[H|[]]]]; discriminate H.
  - discriminate.
  - intros digits E. discriminate E.
Defined.

(** X24.  The audit log carries the body of every response but those of
    GET requests answered with a status from 200 to 299. *)
Theorem audit_body_left_out method statusCode :
  audit_body method statusCode = false <->
  method = str "GET" /\ (200 <= statusCode <= 299)%Z.
Proof.
  unfold audit_body. rewrite negb_false_iff, andb_true_iff, Z.eqb_eq.
  split.
  - intros [M S']. split.
    + destruct method; try discriminate M. cbn [is_string] in M.
      apply String.eqb_eq in M. now subst.
    + pose proof (Z.div_mod statusCode 100 ltac:(lia)).
      pose proof (Z.mod_pos_bound statusCode 100 ltac:(lia)). lia.
  - intros [-> S']. split; [reflexivity|].
    symmetry. apply (Z.div_unique statusCode 100 2 (statusCode - 200)); lia.
Qed.


(* ================================================================= *)
(** ** Reading the output of [docker volume ls] *)

Import VolumesTest.

Lemma trim_start_pad pad c rest :
  only_space pad = true -> is_space c = false ->
  trim_start (pad ++ String c rest) = String c rest.
Proof.
  intros P C. induction pad as [|d pad IH]; cbn [append trim_start].
  - rewrite C. reflexivity.
  - cbn [only_space] in P. apply andb_prop in P as [D P]. rewrite D.
    exact (IH P).
Qed.

Lemma trim_end_spaces pad : only_space pad = true -> trim_end pad = EmptyString.
Proof.
  induction pad as [|d pad IH]; [reflexivity|]. cbn [only_space trim_end].
  intros P. apply andb_prop in P as [D P]. rewrite (IH P), D. reflexivity.
Qed.

Lemma trim_end_pad x pad :
  only_space pad = true -> trim_end (x ++ pad) = trim_end x.
Proof.
  intros P. induction x as [|c x IH]; cbn [append].
  - rewrite (trim_end_spaces pad P). reflexivity.
  - cbn [trim_end]. rewrite IH. reflexivity.
Qed.

Lemma trim_end_word y : forall word,
  no_space word = true -> word <> EmptyString ->
  trim_end (y ++ word) = y ++ word.
Proof.
  induction y as [|c y IH]; intros word W N; cbn [append].
  - clear N. induction word as [|d word IHw]; [reflexivity|].
    cbn [no_space] in W. apply andb_prop in W as [D W].
    apply negb_true_iff in D. cbn [trim_end]. rewrite (IHw W), D.
    destruct word; reflexivity.
  - cbn [trim_end]. rewrite (IH word W N).
    destruct (y ++ word) eqn:E; [|reflexivity].
    destruct y; [cbn in E; congruence|discriminate E].
Qed.

Lemma split_word word : forall field rest,
  no_space word = true ->
  split_spaces false field (word ++ rest)
  = split_spaces false (field ++ word) rest.
Proof.
  induction word as [|c word IH]; intros field rest W; cbn [append].
  - rewrite append_nil_r. reflexivity.
  - cbn [no_space] in W. apply andb_prop in W as [C W].
    apply negb_true_iff in C. cbn [split_spaces]. rewrite C.
    rewrite (IH _ _ W), append_assoc. reflexivity.
Qed.

Lemma split_skip pad : forall rest,
  only_space pad = true ->
  split_spaces true EmptyString (pad ++ rest)
  = split_spaces true EmptyString rest.
Proof.
  induction pad as [|c pad IH]; intros rest P; [reflexivity|].
  cbn [only_space] in P. apply andb_prop in P as [C P].
  cbn [append split_spaces]. rewrite C. exact (IH rest P).
Qed.

(** X25.  The filter that the regression test applies to the lines of
    [docker volume ls] keeps a line made of a driver and a name, however
    padded with white space, exactly when the name is the volume name
    looked for. *)
Theorem keepVolumeWithName_line volumeName pad1 driver pad2 name pad3 :
  only_space pad1 = true ->
  no_space driver = true -> driver <> EmptyString ->
  only_space pad2 = true -> pad2 <> EmptyString ->
  no_space name = true -> name <> EmptyString ->
  only_space pad3 = true ->
  keepVolumeWithName volumeName (pad1 ++ driver ++ pad2 ++ name ++ pad3)
  = (name =? volumeName).
Proof.
  intros P1 D Nd P2 N2 W Nw P3. unfold keepVolumeWithName, trim.
  destruct driver as [|c driver]; [congruence|].
  cbn [no_space] in D. apply andb_prop in D as [C D].
  apply negb_true_iff in C.
  cbn [append]. rewrite (trim_start_pad pad1 c _ P1 C).
  change (String c (driver ++ pad2 ++ name ++ pad3))
    with (String c driver ++ pad2 ++ name ++ pad3).
  replace (String c driver ++ pad2 ++ name ++ pad3)
    with (((String c driver ++ pad2) ++ name) ++ pad3)
    by (rewrite !append_assoc; reflexivity).
  rewrite (trim_end_pad _ pad3 P3), (trim_end_word _ name W Nw).
  rewrite append_assoc. unfold split.
  rewrite (split_word (String c driver))
    by (cbn [no_space]; rewrite C, D; reflexivity).
  destruct pad2 as [|s pad2]; [congruence|].
  cbn [only_space] in P2. apply andb_prop in P2 as [S' P2].
  cbn [append split_spaces]. rewrite S', (split_skip pad2 _ P2).
  destruct name as [|n name]; [congruence|].
  cbn [no_space] in W. apply andb_prop in W as [Cn W].
  apply negb_true_iff in Cn. cbn [split_spaces]. rewrite Cn.
  rewrite <- (append_nil_r name) at 1. rewrite (split_word name _ _ W).
  reflexivity.
Qed.

Lemma keepVolumeWithName_line_witness :
  keepVolumeWithName "foo" ("" ++ "tritonnfs" ++ "      " ++ "foo" ++ " ")
  = ("foo" =? "foo").
Proof.
  apply (keepVolumeWithName_line "foo" "" "tritonnfs" "      " "foo" " ");
    (reflexivity || discriminate).
Defined.
